(** * lazycloud: the Lambda service wrapper, the client manager, the Lambda
    view, and the resource cache / fetch coordination core.

    The Go sources embedded here are
      - package aws: ClientManager and SetRegion,
      - package lambda (lazycloud/internal/aws/lambda): Service, Function,
        ListFunctions, GetFunction, isSensitiveEnvVar,
      - internal/ui/views/lambda/view.go: View.loadFunctions.
    Go values are embedded shallowly: a nilable pointer or map is an
    [option], a [map[string]string] is a [gmap string string], a slice is a
    [list] (the nil slice is [[]]), an [int32] that is only copied is a [Z],
    and a call that may panic, or block for ever, returns a [run]. *)

From Stdlib Require Import ZArith List String Ascii Lia Bool.
From stdpp Require Import base option list gmap gmultiset strings pretty.

(** ** Outcomes of running Go code *)

(** [Ret a]: the call returns [a]; [Panic]: a run-time panic (here always a
    nil pointer dereference); [Hang]: the call never returns. *)
Inductive run (A : Type) : Type :=
| Ret (a : A)
| Panic
| Hang.

Arguments Ret {A} a.
Arguments Panic {A}.
Arguments Hang {A}.

#[export] Instance run_ret : MRet run := fun A a => Ret a.

#[export] Instance run_bind : MBind run := fun A B k m =>
  match m with
  | Ret a => k a
  | Panic => Panic
  | Hang => Hang
  end.

(** [*p] for a pointer [p]. *)
Definition deref {A} (p : option A) : run A :=
  match p with
  | Some a => Ret a
  | None => Panic
  end.

(** Go [error] values that reach this program. [OperationError cause] is
    the error value an SDK operation returns when it gives up for [cause]:
    a [*smithy.OperationError] around the transport's error, around
    [cause]. It is not [cause] itself; [errors.Is] finds [cause] in it. *)
Inductive error : Type :=
| DeadlineExceeded
| Canceled
| ProviderError (msg : string)
| OperationError (cause : error).

(** The text of an operation error names the service, the operation, the
    endpoint and what the transport was doing: it is the SDK's, and stays a
    parameter. *)
Class ErrorText : Type := operationText : error -> string.

(** [err.Error()]. *)
Definition Error {text : ErrorText} (e : error) : string :=
  match e with
  | DeadlineExceeded => "context deadline exceeded"
  | Canceled => "context canceled"
  | ProviderError msg => msg
  | OperationError cause => operationText cause
  end.

(** [errors.Is(e, target)] for a [target] that wraps nothing. *)
Fixpoint Is (e target : error) : bool :=
  match e with
  | DeadlineExceeded =>
      match target with DeadlineExceeded => true | _ => false end
  | Canceled => match target with Canceled => true | _ => false end
  | ProviderError msg =>
      match target with
      | ProviderError msg' => bool_decide (msg = msg')
      | _ => false
      end
  | OperationError cause => Is cause target
  end.

(** ** The parts of the Go library and of the AWS SDK the program calls *)

Module SDK.

(** [context.Context]: the program only ever sets a deadline. The value is
    the timeout in nanoseconds. *)
Record Context : Type := { deadline : option Z }.

Definition Background : Context := {| deadline := None |}.

Definition Second : Z := 1000000000.

Definition WithTimeout (parent : Context) (timeout : Z) : Context :=
  {| deadline :=
       Some (match deadline parent with
             | Some d => Z.min d timeout
             | None => timeout
             end) |}.

(** [time.Time] as an instant counted from the zero time, and
    [time.Parse(time.RFC3339, s)], which is Go library code and stays a
    parameter. *)
Definition Time : Type := Z.

Definition zeroTime : Time := 0%Z.

Class Rfc3339 : Type := Parse : string -> option Time.

(** A parser that accepts nothing, to run inputs that carry no timestamp. *)
Definition rejecting : Rfc3339 := fun _ => None.

(** [types.EnvironmentResponse] and [types.FunctionConfiguration], with the
    fields the program reads. *)
Record EnvironmentResponse : Type := {
  Variables : option (gmap string string)
}.

Record FunctionConfiguration : Type := {
  FunctionName : option string;
  Runtime : string;
  Handler : option string;
  MemorySize : option Z;
  Timeout : option Z;
  State : string;
  Description : option string;
  LastModified : option string;
  Environment : option EnvironmentResponse
}.

Record ListFunctionsOutput : Type := {
  Functions : list FunctionConfiguration;
  NextMarker : option string
}.

(** [lambda.GetFunctionOutput]: [Configuration] is a pointer. *)
Record GetFunctionOutput : Type := {
  Configuration : option FunctionConfiguration
}.

(** What the provider does with one API call: it answers, it answers with
    an error, or it does not answer while the caller's context is live. *)
Inductive Reply (A : Type) : Type :=
| Answer (a : A)
| Fails (e : error)
| NoAnswer.

Arguments Answer {A} a.
Arguments Fails {A} e.
Arguments NoAnswer {A}.

(** One API call under [ctx]. The SDK returns when the provider answers or
    when the context is done; a context with a deadline is done at the
    deadline at the latest, a context without one never is. At the deadline
    the SDK returns its operation error around [context.DeadlineExceeded]. *)
Definition call {A} (ctx : Context) (r : Reply A) : run (A + error) :=
  match r with
  | Answer a => Ret (inl a)
  | Fails e => Ret (inr e)
  | NoAnswer =>
      match deadline ctx with
      | Some _ => Ret (inr (OperationError DeadlineExceeded))
      | None => Hang
      end
  end.

(** [lambda.ListFunctionsPaginator]. *)
Record Paginator : Type := {
  firstPage : bool;
  nextToken : option string
}.

Definition NewListFunctionsPaginator : Paginator :=
  {| firstPage := true; nextToken := None |}.

Definition HasMorePages (p : Paginator) : bool :=
  firstPage p ||
  match nextToken p with
  | Some tok => negb (Nat.eqb (String.length tok) 0)
  | None => false
  end.

Definition NextPage (ctx : Context) (p : Paginator)
    (r : Reply ListFunctionsOutput)
  : run (Paginator * (ListFunctionsOutput + error)) :=
  res ← call ctx r;
  match res with
  | inr err => Ret (p, inr err)
  | inl out => Ret ({| firstPage := false; nextToken := NextMarker out |}, inl out)
  end.

End SDK.

(** ** Package lambda: the Lambda service wrapper *)

Module Lambda.
Import SDK.

Record Function : Type := {
  Name : string;
  Runtime : string;
  Handler : string;
  Description : string;
  Memory : Z;
  Timeout : Z;
  LastModified : Time;
  Status : string;
  Environment : gmap string string
}.

Definition sensitiveKeys : list string :=
  [ "PASSWORD"; "PASSWD"; "SECRET"; "KEY"; "TOKEN"; "API_KEY";
    "AWS_SECRET_ACCESS_KEY"; "DATABASE_PASSWORD"; "DB_PASSWORD";
    "PRIVATE_KEY"; "CERT"; "CREDENTIAL" ].

(** The inner loop of [isSensitiveEnvVar]: [n] iterations starting at index
    [i], comparing [keyUpper[i:i+len(sensitive)]] with [sensitive]. *)
Fixpoint scanFrom (keyUpper sensitive : string) (i n : nat) : bool :=
  match n with
  | O => false
  | S n' =>
      if String.eqb (substring i (String.length sensitive) keyUpper) sensitive
      then true
      else scanFrom keyUpper sensitive (S i) n'
  end.

(** One turn of the outer loop: the guard, then [i] from [0] to
    [len(keyUpper)-len(sensitive)] inclusive. *)
Definition matchesKeyword (keyUpper sensitive : string) : bool :=
  if String.eqb keyUpper sensitive
     || (String.length sensitive <? String.length keyUpper)%nat
  then scanFrom keyUpper sensitive 0
         (S (String.length keyUpper - String.length sensitive))
  else false.

(** [keyUpper := key]: the key is not converted to upper case. *)
Definition isSensitiveEnvVar (key : string) : bool :=
  let keyUpper := key in
  existsb (matchesKeyword keyUpper) sensitiveKeys.

Definition masked : string := "***masked***".

Section Service.
Context {parser : Rfc3339}.

(** The body of [for _, fn := range page.Functions] in [ListFunctions]:
    the [Function] appended for [fn]. *)
Definition listedFunction (fn : FunctionConfiguration) : run Function :=
  name ← deref (FunctionName fn);
  handler ← deref (SDK.Handler fn);
  memory ← deref (MemorySize fn);
  timeout ← deref (SDK.Timeout fn);
  let function :=
    {| Name := name; Runtime := SDK.Runtime fn; Handler := handler;
       Description := ""; Memory := memory; Timeout := timeout;
       LastModified := zeroTime; Status := State fn;
       Environment := ∅ |} in
  let function :=
    match SDK.Description fn with
    | Some d =>
        {| Name := Name function; Runtime := Runtime function;
           Handler := Handler function; Description := d;
           Memory := Memory function; Timeout := Timeout function;
           LastModified := LastModified function; Status := Status function;
           Environment := Environment function |}
    | None => function
    end in
  let function :=
    match SDK.LastModified fn with
    | Some s =>
        match Parse s with
        | Some t =>
            {| Name := Name function; Runtime := Runtime function;
               Handler := Handler function;
               Description := Description function;
               Memory := Memory function; Timeout := Timeout function;
               LastModified := t; Status := Status function;
               Environment := Environment function |}
        | None => function
        end
    | None => function
    end in
  let env :=
    match SDK.Environment fn with
    | Some e =>
        match Variables e with
        | Some vars =>
            map_fold (fun k v (acc : gmap string string) =>
                        if isSensitiveEnvVar k
                        then <[k := masked]> acc
                        else <[k := v]> acc)
                     (Environment function) vars
        | None => Environment function
        end
    | None => Environment function
    end in
  Ret {| Name := Name function; Runtime := Runtime function;
         Handler := Handler function; Description := Description function;
         Memory := Memory function; Timeout := Timeout function;
         LastModified := LastModified function; Status := Status function;
         Environment := env |}.

(** [functions = append(functions, function)] for every [fn] of a page. *)
Fixpoint appendPage (functions : list Function)
    (page : list FunctionConfiguration) : run (list Function) :=
  match page with
  | [] => Ret functions
  | fn :: rest =>
      function ← listedFunction fn;
      appendPage (functions ++ [function]) rest
  end.

(** The [for paginator.HasMorePages()] loop. [script] holds the provider's
    replies to the successive page requests; when it is used up the provider
    stays silent. *)
Fixpoint listLoop (ctx : Context) (paginator : Paginator)
    (functions : list Function) (script : list (Reply ListFunctionsOutput))
  : run (list Function * option error) :=
  if HasMorePages paginator then
    match script with
    | [] =>
        match NextPage ctx paginator NoAnswer with
        | Ret (_, inr err) => Ret ([], Some err)
        | Panic => Panic
        | _ => Hang
        end
    | r :: script' =>
        res ← NextPage ctx paginator r;
        match res with
        | (_, inr err) => Ret ([], Some err)
        | (paginator', inl page) =>
            functions' ← appendPage functions (Functions page);
            listLoop ctx paginator' functions' script'
        end
    end
  else Ret (functions, None).

Definition ListFunctions (ctx : Context)
    (script : list (Reply ListFunctionsOutput))
  : run (list Function * option error) :=
  listLoop ctx NewListFunctionsPaginator [] script.

(** [GetFunction]: one API call, then the conversion of
    [result.Configuration]. *)
Definition GetFunction (ctx : Context) (name : string)
    (reply : Reply GetFunctionOutput) : run (option Function * option error) :=
  res ← call ctx reply;
  match res with
  | inr err => Ret (None, Some err)
  | inl result =>
      fn ← deref (Configuration result);
      fnName ← deref (FunctionName fn);
      fnHandler ← deref (SDK.Handler fn);
      fnMemory ← deref (MemorySize fn);
      fnTimeout ← deref (SDK.Timeout fn);
      let description :=
        match SDK.Description fn with
        | Some d => d
        | None => ""
        end in
      let lastModified :=
        match SDK.LastModified fn with
        | Some s =>
            match Parse s with
            | Some t => t
            | None => zeroTime
            end
        | None => zeroTime
        end in
      let environment :=
        match SDK.Environment fn with
        | Some e =>
            match Variables e with
            | Some vars =>
                map_fold (fun k v (acc : gmap string string) =>
                            if isSensitiveEnvVar k
                            then <[k := masked]> acc
                            else <[k := v]> acc)
                         ∅ vars
            | None => ∅
            end
        | None => ∅
        end in
      Ret (Some {| Name := fnName; Runtime := SDK.Runtime fn;
                   Handler := fnHandler; Description := description;
                   Memory := fnMemory; Timeout := fnTimeout;
                   LastModified := lastModified; Status := State fn;
                   Environment := environment |},
           None)
  end.

End Service.

End Lambda.

(** ** Package aws: the client manager *)

Module Aws.

(** [aws.Config]: the region, and the endpoint the resolver installed by
    [NewClientManager] answers with (LocalStack), if any. *)
Record Config : Type := {
  Region : string;
  Endpoint : option string
}.

(** [cm.config.Copy()] *)
Definition Copy (cfg : Config) : Config :=
  {| Region := Region cfg; Endpoint := Endpoint cfg |}.

(** The service clients; each is built from a config by its package's
    [NewFromConfig]. *)
Record LambdaClient : Type := { lambdaOptions : Config }.
Record S3Client : Type := { s3Options : Config }.
Record ECSClient : Type := { ecsOptions : Config }.

Definition lambda_NewFromConfig (cfg : Config) : LambdaClient :=
  {| lambdaOptions := cfg |}.
Definition s3_NewFromConfig (cfg : Config) : S3Client :=
  {| s3Options := cfg |}.
Definition ecs_NewFromConfig (cfg : Config) : ECSClient :=
  {| ecsOptions := cfg |}.

Record ClientManager : Type := {
  config : Config;
  region : string;
  profile : string;
  lambdaClient : LambdaClient;
  s3Client : S3Client;
  ecsClient : ECSClient
}.

Definition GetLambdaClient (cm : ClientManager) : LambdaClient := lambdaClient cm.
Definition GetS3Client (cm : ClientManager) : S3Client := s3Client cm.
Definition GetECSClient (cm : ClientManager) : ECSClient := ecsClient cm.
Definition GetRegion (cm : ClientManager) : string := region cm.

(** [SetRegion] mutates the manager and returns a nil error: the result is
    the manager after the call and the error. *)
Definition SetRegion (cm : ClientManager) (newRegion : string)
  : ClientManager * option error :=
  let cfg := Copy (config cm) in
  let cfg := {| Region := newRegion; Endpoint := Endpoint cfg |} in
  ({| config := cfg;
      region := newRegion;
      profile := profile cm;
      lambdaClient := lambda_NewFromConfig cfg;
      s3Client := s3_NewFromConfig cfg;
      ecsClient := ecs_NewFromConfig cfg |},
   None).

(** The manager [NewClientManager] builds for a loaded config: region
    "us-east-1", no profile. *)
Definition managerFor (cfg : Config) : ClientManager :=
  {| config := cfg;
     region := Region cfg;
     profile := "";
     lambdaClient := lambda_NewFromConfig cfg;
     s3Client := s3_NewFromConfig cfg;
     ecsClient := ecs_NewFromConfig cfg |}.

Definition defaultManager : ClientManager :=
  managerFor {| Region := "us-east-1"; Endpoint := None |}.

End Aws.

(** ** internal/ui/views/lambda/view.go *)

Module LambdaView.
Import SDK Lambda.

(** The fields of [View] that [loadFunctions] itself reads or writes.
    [updateStatus] does not write the status bar: it starts a goroutine
    that will call [statusBar.SetText(message)], and returns. Nothing
    orders these goroutines among themselves or with the end of
    [loadFunctions], so [statusUpdates] is the multiset of the texts of the
    goroutines started so far; which of them the status bar shows last is
    not determined. The tview list and detail widgets, written by
    [updateFunctionList], are embedded in [LambdaScreen]. *)
Record View : Type := {
  functions : list Function;
  loading : bool;
  statusUpdates : gmultiset string
}.

Definition updateStatus (v : View) (message : string) : View :=
  {| functions := functions v; loading := loading v;
     statusUpdates := statusUpdates v ⊎ {[+ message +]} |}.

Definition setLoading (v : View) (b : bool) : View :=
  {| functions := functions v; loading := b;
     statusUpdates := statusUpdates v |}.

Definition setFunctions (v : View) (fs : list Function) : View :=
  {| functions := fs; loading := loading v;
     statusUpdates := statusUpdates v |}.

(** The context [loadFunctions] builds:
    [context.WithTimeout(context.Background(), 30*time.Second)]. *)
Definition loadContext : Context := WithTimeout Background (30 * Second).

(** What a run of [loadFunctions] does: the contexts it handed to
    [service.ListFunctions], and how the call ended. *)
Record LoadRun : Type := {
  fetches : list Context;
  outcome : run View
}.

Section View.
Context {parser : Rfc3339} {text : ErrorText}.

Definition loadFunctions (v : View)
    (script : list (Reply ListFunctionsOutput)) : LoadRun :=
  let v := setLoading v true in
  let v := updateStatus v "Loading Lambda functions..." in
  let ctx := loadContext in
  {| fetches := [ctx];
     outcome :=
       res ← ListFunctions ctx script;
       match res with
       | (_, Some err) =>
           let v := updateStatus v ("Error: " +:+ Error err) in
           Ret (setLoading v false)
       | (fns, None) =>
           let v := setFunctions v fns in
           let v :=
             updateStatus v
               ("Loaded " +:+ pretty (length fns) +:+ " functions") in
           Ret (setLoading v false)
       end |}.

End View.

Definition newView : View :=
  {| functions := []; loading := false; statusUpdates := ∅ |}.

End LambdaView.

(** ** The resource cache and fetch coordination core

    The repository's README sketches [CacheEntry], [Cache] and
    [TaskManager]; no source file implements them. The definitions of this
    module follow the specification, sections 3 to 5. *)

Module Core.

(** Modelled from the spec: [ResourceKey], the immutable composite lookup
    key with structural equality (no source file declares it). *)
Record ResourceKey : Type := {
  kind : string;
  accountIdentifier : string;
  region : string;
  extra : string
}.

#[export] Instance ResourceKey_eq_dec : EqDecision ResourceKey.
Proof. solve_decision. Defined.

(** Modelled from the spec: the error taxonomy of section 7; [Cancelled] is
    a notification of its own, distinct from a failure. *)
Inductive ErrorKind : Type :=
| Timeout
| ProviderError
| NotFound.

(** Modelled from the spec: [SessionContext], whose [version] stamps
    every change (the source's [ClientManager] has no such field). *)
Record SessionContext : Type := {
  currentAccount : string;
  currentRegion : string;
  currentProfile : string;
  version : nat
}.

Section Core.
Context {Value : Type}.

(** Modelled from the spec: [CacheEntry] (the README only lists
    [Data], [Timestamp] and [TTL]). *)
Record CacheEntry : Type := {
  key : ResourceKey;
  value : Value;
  storedAt : Z;
  ttl : Z;
  sessionVersion : nat
}.

(** Modelled from the spec: [CacheStore], a bounded store with
    least-recently-used eviction. [entries] is kept most recently used
    first. *)
Record CacheStore : Type := {
  entries : list CacheEntry;
  capacity : nat
}.

(** Modelled from the spec: the validity invariant of [CacheEntry],
    [now - storedAt < ttl] and [sessionVersion == CurrentSessionVersion]. *)
Definition valid (current : nat) (now : Z) (e : CacheEntry) : bool :=
  bool_decide (now - storedAt e < ttl e)%Z
  && bool_decide (sessionVersion e = current).

(** Modelled from the spec: the map lookup behind [Get]. *)
Fixpoint lookupEntry (k : ResourceKey) (es : list CacheEntry)
  : option CacheEntry :=
  match es with
  | [] => None
  | e :: es' => if bool_decide (key e = k) then Some e else lookupEntry k es'
  end.

(** Modelled from the spec: removal of the entry of a key (replace-on-write,
    [Invalidate]). *)
Fixpoint dropKey (k : ResourceKey) (es : list CacheEntry) : list CacheEntry :=
  match es with
  | [] => []
  | e :: es' =>
      if bool_decide (key e = k) then dropKey k es' else e :: dropKey k es'
  end.

(** Modelled from the spec: [CacheStore.Get], found=false if absent,
    expired or tagged with a stale session version; a hit makes the entry
    the most recently used. *)
Definition Get (current : nat) (now : Z) (k : ResourceKey) (s : CacheStore)
  : option Value * CacheStore :=
  match lookupEntry k (entries s) with
  | Some e =>
      if valid current now e
      then (Some (value e),
            {| entries := e :: dropKey k (entries s);
               capacity := capacity s |})
      else (None, s)
  | None => (None, s)
  end.

(** Modelled from the spec: [CacheStore.Put], which overwrites the entry
    of the key, stamps the current session version and time, and evicts
    the least recently used entries beyond the capacity. *)
Definition Put (current : nat) (now : Z) (k : ResourceKey) (v : Value)
    (t : Z) (s : CacheStore) : CacheStore :=
  let e := {| key := k; value := v; storedAt := now; ttl := t;
              sessionVersion := current |} in
  {| entries := take (capacity s) (e :: dropKey k (entries s));
     capacity := capacity s |}.

(** Modelled from the spec: [CacheStore.Invalidate]. *)
Definition Invalidate (k : ResourceKey) (s : CacheStore) : CacheStore :=
  {| entries := dropKey k (entries s); capacity := capacity s |}.

(** Modelled from the spec: [CacheStore.InvalidateAll], which removes
    everything not matching the given version. *)
Definition InvalidateAll (ver : nat) (s : CacheStore) : CacheStore :=
  {| entries := filter (fun e => sessionVersion e = ver) (entries s);
     capacity := capacity s |}.

(** Modelled from the spec: the terminal notifications of a result
    handle. *)
Inductive Notification : Type :=
| Resolved (v : Value) (fromCache : bool)
| Failed (k : ErrorKind) (message : string)
| Cancelled.

(** Modelled from the spec: what a fetch function returns,
    [(typed value, error-kind)]. *)
Inductive FetchResult : Type :=
| Fetched (v : Value)
| FetchFailed (k : ErrorKind) (message : string).

(** Modelled from the spec: [InFlightFetch]; subscribers are result
    handles. The cancellation handle is the entry of the fetch in
    [signalled] below. *)
Record InFlightFetch : Type := {
  fetchKey : ResourceKey;
  startedAt : Z;
  subscribers : list nat;
  fetchVersion : nat
}.

(** Modelled from the spec: the state of [ResourceBroker] with its
    [SessionContext], [CacheStore] and [FetchCoordinator] table, and what
    it has done so far: the notifications delivered to handles, the fetch
    function invocations started, and the cancellations signalled.
    [ttlOf] is the per-kind TTL of the configuration. *)
Record Broker : Type := {
  session : SessionContext;
  store : CacheStore;
  inflight : list InFlightFetch;
  nextHandle : nat;
  delivered : list (nat * Notification);
  invoked : list (ResourceKey * nat);
  signalled : list (ResourceKey * nat);
  ttlOf : string -> Z
}.

(** Modelled from the spec: the broker with its [CacheStore] replaced
    (replace-on-write); the five definitions after it likewise update one
    component each. *)
Definition withStore (b : Broker) (s : CacheStore) : Broker :=
  {| session := session b; store := s; inflight := inflight b;
     nextHandle := nextHandle b; delivered := delivered b;
     invoked := invoked b; signalled := signalled b; ttlOf := ttlOf b |}.

(** Modelled from the spec: the broker with its in-flight table replaced. *)
Definition withInflight (b : Broker) (fs : list InFlightFetch) : Broker :=
  {| session := session b; store := store b; inflight := fs;
     nextHandle := nextHandle b; delivered := delivered b;
     invoked := invoked b; signalled := signalled b; ttlOf := ttlOf b |}.

(** Modelled from the spec: the broker with its [SessionContext]
    replaced. *)
Definition withSession (b : Broker) (s : SessionContext) : Broker :=
  {| session := s; store := store b; inflight := inflight b;
     nextHandle := nextHandle b; delivered := delivered b;
     invoked := invoked b; signalled := signalled b; ttlOf := ttlOf b |}.

(** Modelled from the spec: a new result handle is given out. *)
Definition allocHandle (b : Broker) : Broker :=
  {| session := session b; store := store b; inflight := inflight b;
     nextHandle := S (nextHandle b); delivered := delivered b;
     invoked := invoked b; signalled := signalled b; ttlOf := ttlOf b |}.

(** Modelled from the spec: notifications are delivered to handles. *)
Definition deliver (b : Broker) (ns : list (nat * Notification)) : Broker :=
  {| session := session b; store := store b; inflight := inflight b;
     nextHandle := nextHandle b; delivered := delivered b ++ ns;
     invoked := invoked b; signalled := signalled b; ttlOf := ttlOf b |}.

(** Modelled from the spec: the fetch function is invoked, off the
    calling path, for a key under a session version. *)
Definition invoke (b : Broker) (k : ResourceKey) (ver : nat) : Broker :=
  {| session := session b; store := store b; inflight := inflight b;
     nextHandle := nextHandle b; delivered := delivered b;
     invoked := invoked b ++ [(k, ver)]; signalled := signalled b;
     ttlOf := ttlOf b |}.

(** Modelled from the spec: cancellation is signalled to fetches. *)
Definition signal (b : Broker) (cs : list (ResourceKey * nat)) : Broker :=
  {| session := session b; store := store b; inflight := inflight b;
     nextHandle := nextHandle b; delivered := delivered b;
     invoked := invoked b; signalled := signalled b ++ cs;
     ttlOf := ttlOf b |}.

(** Modelled from the spec: an [InFlightFetch] is looked up by its key
    and a matching session version. *)
Definition isFetch (k : ResourceKey) (ver : nat) (f : InFlightFetch) : bool :=
  bool_decide (fetchKey f = k) && bool_decide (fetchVersion f = ver).

(** Modelled from the spec: the in-flight table lookup of
    [FetchCoordinator]. *)
Fixpoint findFetch (k : ResourceKey) (ver : nat) (fs : list InFlightFetch)
  : option InFlightFetch :=
  match fs with
  | [] => None
  | f :: fs' => if isFetch k ver f then Some f else findFetch k ver fs'
  end.

(** Modelled from the spec: join semantics, the caller is added to the
    subscriber list of the fetch of the key; [None] when there is none. *)
Fixpoint joinFetch (k : ResourceKey) (ver : nat) (h : nat)
    (fs : list InFlightFetch) : option (list InFlightFetch) :=
  match fs with
  | [] => None
  | f :: fs' =>
      if isFetch k ver f
      then Some ({| fetchKey := fetchKey f; startedAt := startedAt f;
                    subscribers := subscribers f ++ [h];
                    fetchVersion := fetchVersion f |} :: fs')
      else cons f <$> joinFetch k ver h fs'
  end.

(** Modelled from the spec: removal of the [InFlightFetch] record. *)
Fixpoint removeFetch (k : ResourceKey) (ver : nat) (fs : list InFlightFetch)
  : list InFlightFetch :=
  match fs with
  | [] => []
  | f :: fs' => if isFetch k ver f then fs' else f :: removeFetch k ver fs'
  end.

(** Modelled from the spec: [FetchCoordinator.RequestFetch], one atomic
    check-then-act: join the fetch of the key, or create one and invoke the
    fetch function. *)
Definition RequestFetch (now : Z) (k : ResourceKey) (ver : nat) (h : nat)
    (b : Broker) : Broker :=
  match joinFetch k ver h (inflight b) with
  | Some fs => withInflight b fs
  | None =>
      invoke
        (withInflight b
           (inflight b ++
            [{| fetchKey := k; startedAt := now; subscribers := [h];
                fetchVersion := ver |}]))
        k ver
  end.

(** Modelled from the spec: the [ResourceKey] built from [kind], the
    current [SessionContext] and the scope parameters. *)
Definition keyFor (b : Broker) (knd scope : string) : ResourceKey :=
  {| kind := knd;
     accountIdentifier := currentAccount (session b);
     region := currentRegion (session b);
     extra := scope |}.

(** Modelled from the spec: [ResourceBroker.Request]; the result is the
    handle given to the caller and the broker after the call. *)
Definition Request (now : Z) (knd scope : string) (b : Broker)
  : nat * Broker :=
  let k := keyFor b knd scope in
  let h := nextHandle b in
  let b := allocHandle b in
  match Get (version (session b)) now k (store b) with
  | (Some v, s) => (h, deliver (withStore b s) [(h, Resolved v true)])
  | (None, s) => (h, RequestFetch now k (version (session b)) h (withStore b s))
  end.

(** Modelled from the spec: [ResourceBroker.ForceRefresh], like [Request]
    after invalidating the entry of the key. *)
Definition ForceRefresh (now : Z) (knd scope : string) (b : Broker)
  : nat * Broker :=
  let k := keyFor b knd scope in
  Request now knd scope (withStore b (Invalidate k (store b))).

(** Modelled from the spec: resolution of the fetch of [(k, ver)] when its
    fetch function returns [r]. On success [Put], then notify every
    subscriber, then remove the record; on failure notify and remove, with
    no cache write; a result whose version is no longer current is never
    written; a result of a fetch that is no longer in flight is discarded. *)
Definition Resolve (now : Z) (k : ResourceKey) (ver : nat) (r : FetchResult)
    (b : Broker) : Broker :=
  match findFetch k ver (inflight b) with
  | None => b
  | Some f =>
      let rest := removeFetch k ver (inflight b) in
      if bool_decide (ver = version (session b)) then
        match r with
        | Fetched v =>
            let b := withStore b (Put ver now k v (ttlOf b (kind k)) (store b)) in
            withInflight
              (deliver b (map (fun h => (h, Resolved v false)) (subscribers f)))
              rest
        | FetchFailed ek msg =>
            withInflight
              (deliver b (map (fun h => (h, Failed ek msg)) (subscribers f)))
              rest
        end
      else
        withInflight
          (deliver b (map (fun h => (h, Cancelled)) (subscribers f)))
          rest
  end.

(** Modelled from the spec: [FetchCoordinator.CancelSession], which
    cancels every fetch of the old version: its subscribers are notified
    with [Cancelled] and its record is removed, whatever the fetch function
    does with the signal. *)
Definition CancelSession (old : nat) (b : Broker) : Broker :=
  let hit := filter (fun f => fetchVersion f = old) (inflight b) in
  let rest := filter (fun f => fetchVersion f <> old) (inflight b) in
  withInflight
    (deliver
       (signal b (map (fun f => (fetchKey f, fetchVersion f)) hit))
       (flat_map (fun f => map (fun h => (h, Cancelled)) (subscribers f)) hit))
    rest.

(** Modelled from the spec: [ResourceBroker.SwitchSession], which
    advances the session to a new version and cancels the fetches of the
    old one; cache entries of the old version stay and are ignored. *)
Definition SwitchSession (account rgn prof : string) (b : Broker) : Broker :=
  let old := version (session b) in
  CancelSession old
    (withSession b
       {| currentAccount := account; currentRegion := rgn;
          currentProfile := prof; version := S old |}).

(** Modelled from the spec: the broker at process start. *)
Definition newBroker (account rgn prof : string) (cap : nat)
    (ttls : string -> Z) : Broker :=
  {| session := {| currentAccount := account; currentRegion := rgn;
                   currentProfile := prof; version := 0 |};
     store := {| entries := []; capacity := cap |};
     inflight := [];
     nextHandle := 0;
     delivered := [];
     invoked := [];
     signalled := [];
     ttlOf := ttls |}.

(** Modelled from the spec: the things that happen to the broker, each an
    atomic step: callers request or refresh, fetch functions return, the
    session is switched. *)
Inductive Event : Type :=
| EvRequest (now : Z) (knd scope : string)
| EvForceRefresh (now : Z) (knd scope : string)
| EvResolve (now : Z) (k : ResourceKey) (ver : nat) (r : FetchResult)
| EvSwitchSession (account rgn prof : string).

(** Modelled from the spec: the effect of one event. *)
Definition step (b : Broker) (e : Event) : Broker :=
  match e with
  | EvRequest now knd scope => snd (Request now knd scope b)
  | EvForceRefresh now knd scope => snd (ForceRefresh now knd scope b)
  | EvResolve now k ver r => Resolve now k ver r b
  | EvSwitchSession account rgn prof => SwitchSession account rgn prof b
  end.

(** Modelled from the spec: events take effect one after the other. *)
Definition steps (b : Broker) (es : list Event) : Broker :=
  fold_left step es b.

(** Modelled from the spec: the handles that are subscribers of a fetch
    in flight. *)
Definition waiting (b : Broker) : list nat :=
  flat_map subscribers (inflight b).

(** Modelled from the spec: the handles notified so far, one occurrence
    for each notification. *)
Definition notified (b : Broker) : list nat :=
  map fst (delivered b).


(** How often a handle occurs in a list of handles. *)
Definition occurrences (h : nat) (l : list nat) : nat :=
  length (filter (fun x => x = h) l).

(** Modelled from the spec: sections 4.2 and 5 serialise the create-or-join
    decision and the entry replace-on-write and let cache reads run
    concurrently, so a [Request] call is not one step. [Reads c now] is the
    first half of the call of caller [c]: it reads the session and the
    cache, and returns on a hit. On a miss the caller goes on to
    [RequestFetch], the second half [Joins c now], after whatever else took
    place in between. [Other e] is any event of the broker. *)
Inductive Move : Type :=
| Reads (caller : nat) (now : Z)
| Joins (caller : nat) (now : Z)
| Other (e : Event).

(** Modelled from the spec: the broker, the callers that are between the
    two halves of their [Request] call, each with the key and the session
    version it read, and the handles given to callers so far. *)
Record Callers : Type := {
  broker : Broker;
  between : list (nat * (ResourceKey * nat));
  handles : list (nat * nat)
}.

(** Modelled from the spec: what a caller between the two halves of its
    call has read. *)
Fixpoint readBy (c : nat) (l : list (nat * (ResourceKey * nat)))
  : option (ResourceKey * nat) :=
  match l with
  | [] => None
  | (c', kv) :: l' => if bool_decide (c' = c) then Some kv else readBy c l'
  end.

(** Modelled from the spec: the caller has gone on. *)
Fixpoint gone (c : nat) (l : list (nat * (ResourceKey * nat)))
  : list (nat * (ResourceKey * nat)) :=
  match l with
  | [] => []
  | (c', kv) :: l' =>
      if bool_decide (c' = c) then l' else (c', kv) :: gone c l'
  end.

(** Modelled from the spec: the effect of one move, for callers that all
    request the resource [(knd, scope)]. The two halves together are
    [Request]. *)
Definition move (knd scope : string) (s : Callers) (m : Move) : Callers :=
  let b := broker s in
  match m with
  | Reads c now =>
      let k := keyFor b knd scope in
      let ver := version (session b) in
      match Get ver now k (store b) with
      | (Some v, st) =>
          let h := nextHandle b in
          {| broker :=
               deliver (withStore (allocHandle b) st) [(h, Resolved v true)];
             between := between s;
             handles := handles s ++ [(c, h)] |}
      | (None, st) =>
          {| broker := withStore b st;
             between := between s ++ [(c, (k, ver))];
             handles := handles s |}
      end
  | Joins c now =>
      match readBy c (between s) with
      | Some (k, ver) =>
          let h := nextHandle b in
          {| broker := RequestFetch now k ver h (allocHandle b);
             between := gone c (between s);
             handles := handles s ++ [(c, h)] |}
      | None => s
      end
  | Other e =>
      {| broker := step b e; between := between s; handles := handles s |}
  end.

(** Modelled from the spec: moves take effect one after the other, in any
    order the schedule gives them; no caller is in the middle of a call at
    the start. *)
Definition play (knd scope : string) (s : Callers) (ms : list Move)
  : Callers :=
  fold_left (move knd scope) ms s.

Definition start (b : Broker) : Callers :=
  {| broker := b; between := []; handles := [] |}.

End Core.

End Core.

(** ** Package lambda: invoking a function *)

Module SDKInvoke.

(** [lambda.InvokeOutput], with the fields the program reads. *)
Record InvokeOutput : Type := {
  StatusCode : Z;
  Payload : list Byte.byte;
  FunctionError : option string;
  LogResult : option string
}.

End SDKInvoke.

Module LambdaInvoke.
Import SDK.

Record InvocationResult : Type := {
  StatusCode : Z;
  Payload : list Byte.byte;
  Error : string;
  LogResult : string
}.

(** [InvokeFunction]: one API call; the two optional texts of the output
    are copied when they are there. *)
Definition InvokeFunction (ctx : Context) (name : string)
    (payload : list Byte.byte) (reply : Reply SDKInvoke.InvokeOutput)
  : run (option InvocationResult * option error) :=
  res ← call ctx reply;
  match res with
  | inr err => Ret (None, Some err)
  | inl result =>
      let invocationResult :=
        {| StatusCode := SDKInvoke.StatusCode result;
           Payload := SDKInvoke.Payload result;
           Error := "";
           LogResult := "" |} in
      let invocationResult :=
        match SDKInvoke.FunctionError result with
        | Some e =>
            {| StatusCode := StatusCode invocationResult;
               Payload := Payload invocationResult;
               Error := e;
               LogResult := LogResult invocationResult |}
        | None => invocationResult
        end in
      let invocationResult :=
        match SDKInvoke.LogResult result with
        | Some l =>
            {| StatusCode := StatusCode invocationResult;
               Payload := Payload invocationResult;
               Error := Error invocationResult;
               LogResult := l |}
        | None => invocationResult
        end in
      Ret (Some invocationResult, None)
  end.

End LambdaInvoke.

(** ** Package aws: building the client manager *)

Module AwsStart.
Import Aws.

(** [config.LoadDefaultConfig] with [WithRegion] and, for LocalStack, with
    an endpoint resolver: SDK code. Whether loading fails is a parameter;
    a loaded config has the region and the resolver it was given. *)
Definition LoadDefaultConfig (failure : option error) (rgn : string)
    (resolver : option string) : Config + error :=
  match failure with
  | Some err => inr err
  | None => inl {| Region := rgn; Endpoint := resolver |}
  end.

(** The three ways the environment asks for LocalStack. [getenv] is
    [os.Getenv]: an unset variable reads as the empty string. *)
Definition isLocalStack (getenv : string -> string) : bool :=
  negb (String.eqb (getenv "LOCALSTACK_ENDPOINT") "")
  || negb (String.eqb (getenv "AWS_ENDPOINT_URL") "")
  || String.eqb (getenv "LAZYCLOUD_LOCAL") "true".

(** The URL the endpoint resolver of [NewClientManager] answers with, for
    every service and region. *)
Definition resolvedEndpoint (getenv : string -> string) : string :=
  let endpoint := getenv "LOCALSTACK_ENDPOINT" in
  if String.eqb endpoint "" then "http://localhost:4566" else endpoint.

Definition NewClientManager (getenv : string -> string)
    (failure : option error) : option ClientManager * option error :=
  let loaded :=
    if isLocalStack getenv
    then LoadDefaultConfig failure "us-east-1" (Some (resolvedEndpoint getenv))
    else LoadDefaultConfig failure "us-east-1" None in
  match loaded with
  | inr err => (None, Some err)
  | inl cfg => (Some (managerFor cfg), None)
  end.

(** Successive [SetRegion] calls on one manager. *)
Definition setRegions (cm : ClientManager) (regions : list string)
  : ClientManager :=
  fold_left (fun cm r => fst (SetRegion cm r)) regions cm.

End AwsStart.

(** ** internal/ui/views/lambda/view.go: the list and the details pane *)

Module LambdaScreen.
Import SDK Lambda LambdaView.

(** [t.Format("2006-01-02 15:04:05")], Go library code, stays a
    parameter. *)
Class TimeLayout : Type := Format : Time -> string.

(** The order in which [range] yields the entries of a map: Go leaves it
    open, so it is a parameter; every entry comes once. *)
Class MapRange : Type := rangeOver : gmap string string -> list (string * string).

(** [t.IsZero()] *)
Definition IsZero (t : Time) : bool := Z.eqb t zeroTime.

(** The newline, and the bullet of the list (three bytes in UTF-8). *)
Definition nl : string := String (Ascii.ascii_of_nat 10) "".

Definition bullet : string := "●".

(** An item of the [tview.List], and the widgets of the view:
    [functionList] with its current item, and the text of
    [functionDetail]. *)
Record ListItem : Type := {
  mainText : string;
  secondaryText : string;
  shortcut : Z
}.

Record Widgets : Type := {
  functionList : list ListItem;
  currentItem : Z;
  functionDetail : string
}.

(** [functionList.Clear()], [AddItem], [SetCurrentItem], and
    [functionDetail.SetText]. *)
Definition Clear (w : Widgets) : Widgets :=
  {| functionList := []; currentItem := 0; functionDetail := functionDetail w |}.

Definition AddItem (w : Widgets) (main secondary : string) (key : Z)
  : Widgets :=
  {| functionList :=
       functionList w ++
       [{| mainText := main; secondaryText := secondary; shortcut := key |}];
     currentItem := currentItem w;
     functionDetail := functionDetail w |}.

Definition SetCurrentItem (w : Widgets) (index : Z) : Widgets :=
  {| functionList := functionList w; currentItem := index;
     functionDetail := functionDetail w |}.

Definition SetText (w : Widgets) (text : string) : Widgets :=
  {| functionList := functionList w; currentItem := currentItem w;
     functionDetail := text |}.

(** Conversion of an [int] to [rune], a 32-bit signed integer. *)
Definition toRune (z : Z) : Z := ((z + 2 ^ 31) mod 2 ^ 32 - 2 ^ 31)%Z.

Section Screen.
Context {layout : TimeLayout} {order : MapRange}.

(** The strings [showFunctionDetails] writes to its [strings.Builder],
    in order. *)
Definition detailWrites (fn : Function) : list string :=
  [ "[yellow]Function Name:[white] " +:+ Name fn +:+ nl;
    "[yellow]Runtime:[white] " +:+ Runtime fn +:+ nl;
    "[yellow]Handler:[white] " +:+ Handler fn +:+ nl;
    "[yellow]Memory:[white] " +:+ pretty (Memory fn) +:+ " MB" +:+ nl;
    "[yellow]Timeout:[white] " +:+ pretty (Timeout fn) +:+ " seconds" +:+ nl;
    "[yellow]Status:[white] " +:+ Status fn +:+ nl ]
  ++ (if negb (String.eqb (Description fn) "")
      then ["[yellow]Description:[white] " +:+ Description fn +:+ nl]
      else [])
  ++ (if negb (IsZero (LastModified fn))
      then ["[yellow]Last Modified:[white] " +:+ Format (LastModified fn)
            +:+ nl]
      else [])
  ++ (if (0 <? size (Environment fn))%nat
      then (nl +:+ "[yellow]Environment Variables:[white]" +:+ nl)
           :: map (fun kv => "  " +:+ fst kv +:+ " = " +:+ snd kv +:+ nl)
                  (rangeOver (Environment fn))
      else [])
  ++ [ nl +:+ "[blue]Available Actions:[white]" +:+ nl;
       "  [green]Enter[white] - View logs" +:+ nl;
       "  [green]i[white] - Invoke function" +:+ nl;
       "  [green]r[white] - Refresh list" +:+ nl ].

(** [details.String()] *)
Definition built (writes : list string) : string :=
  fold_left (fun details s => details +:+ s) writes "".

(** [v.functions[index]]: indexing out of range panics. *)
Definition at_index (fns : list Function) (index : Z) : run Function :=
  if (index <? 0)%Z then Panic
  else match fns !! Z.to_nat index with
       | Some fn => Ret fn
       | None => Panic
       end.

Definition showFunctionDetails (v : View) (w : Widgets) (index : Z)
  : run Widgets :=
  if (index <? 0)%Z || (Z.of_nat (length (functions v)) <=? index)%Z
  then Ret w
  else
    fn ← at_index (functions v) index;
    Ret (SetText w (built (detailWrites fn))).

(** [onFunctionSelected], the handler of the list. *)
Definition onFunctionSelected (v : View) (w : Widgets) (index : Z)
    (primaryText secondaryText : string) (key : Z) : run Widgets :=
  showFunctionDetails v w index.

(** The body of [for i, fn := range v.functions] in [updateFunctionList],
    from index [i] on. *)
Fixpoint addItems (i : nat) (fns : list Function) (w : Widgets) : Widgets :=
  match fns with
  | [] => w
  | fn :: fns' =>
      let secondary :=
        Runtime fn +:+ " | " +:+ pretty (Memory fn) +:+ "MB | "
        +:+ pretty (Timeout fn) +:+ "s timeout" in
      let statusColor :=
        if negb (String.eqb (Status fn) "Active") then "yellow" else "green" in
      let primary :=
        "[" +:+ statusColor +:+ "]" +:+ bullet +:+ "[white] " +:+ Name fn in
      addItems (S i) fns'
        (AddItem w primary secondary (toRune (49 + Z.of_nat i)))
  end.

Definition updateFunctionList (v : View) (w : Widgets) : run Widgets :=
  let w := Clear w in
  if Nat.eqb (length (functions v)) 0 then
    let w := AddItem w "No Lambda functions found" "" 0 in
    Ret (SetText w "No functions available")
  else
    let w := addItems 0 (functions v) w in
    if (0 <? length (functions v))%nat then
      let w := SetCurrentItem w 0 in
      showFunctionDetails v w 0
    else Ret w.

End Screen.

End LambdaScreen.

(** ** The development setup script *)

Module DevSetup.

(** The [while [ $timeout -gt 0 ]] loop: [health k] tells whether the
    [k]-th request to the LocalStack health endpoint succeeds. The result
    is the value of [timeout] after the loop and the number of requests
    made. [n] bounds the iterations. *)
Fixpoint waitLoop (health : nat -> bool) (n : nat) (timeout : Z)
    (polls : nat) : Z * nat :=
  match n with
  | O => (timeout, polls)
  | S n' =>
      if (0 <? timeout)%Z then
        if health polls then (timeout, S polls)
        else waitLoop health n' (timeout - 2) (S polls)
      else (timeout, polls)
  end.

(** The exit status of the script: 1 when Docker is not running, 1 when
    LocalStack did not get ready, 0 otherwise. [timeout] starts at 60 and
    falls by 2 for every request that fails. *)
Definition setup (dockerRunning : bool) (health : nat -> bool) : Z * nat :=
  if negb dockerRunning then (1%Z, 0)
  else
    let '(timeout, polls) := waitLoop health (Z.to_nat 60) 60 0 in
    if (timeout <=? 0)%Z then (1%Z, polls) else (0%Z, polls).

End DevSetup.

(** ** Vocabulary of the statements *)

(** [t] occurs in [s] as a contiguous substring. *)
Definition contains (t s : string) : Prop :=
  exists pre post : string, s = pre +:+ t +:+ post.

(** The key contains one of the fixed sensitive keywords. *)
Definition hasSensitiveKeyword (k : string) : Prop :=
  exists w : string, In w Lambda.sensitiveKeys /\ contains w k.

(** The environment variables the provider sent for a function, if any. *)
Definition variablesOf (fn : SDK.FunctionConfiguration)
  : option (gmap string string) :=
  e ← SDK.Environment fn; SDK.Variables e.

(** The four fields both conversions dereference without a guard. *)
Definition requiredFields (fn : SDK.FunctionConfiguration) : Prop :=
  is_Some (SDK.FunctionName fn) /\ is_Some (SDK.Handler fn) /\
  is_Some (SDK.MemorySize fn) /\ is_Some (SDK.Timeout fn).

(** After this page the paginator has more pages. *)
Definition morePages (out : SDK.ListFunctionsOutput) : bool :=
  SDK.HasMorePages
    {| SDK.firstPage := false; SDK.nextToken := SDK.NextMarker out |}.

(** All functions of a sequence of pages, in order. *)
Definition functionsOf (pages : list SDK.ListFunctionsOutput)
  : list SDK.FunctionConfiguration :=
  concat (map SDK.Functions pages).

(** The environment of a converted function, by lookups. *)
Definition maskedLookup (fn : SDK.FunctionConfiguration) (k : string)
  : option string :=
  match variablesOf fn with
  | Some vars =>
      (fun v => if Lambda.isSensitiveEnvVar k then Lambda.masked else v)
        <$> vars !! k
  | None => None
  end.

(** [f] is an element of the list [ListFunctions] returns, built from the
    configuration [fn] of one of the pages the provider answered with. *)
Definition listed {parser : SDK.Rfc3339} (ctx : SDK.Context)
    (fn : SDK.FunctionConfiguration) (f : Lambda.Function) : Prop :=
  exists (pages : list SDK.ListFunctionsOutput)
         (rest : list (SDK.Reply SDK.ListFunctionsOutput))
         (fs : list Lambda.Function) (i : nat),
    Lambda.ListFunctions ctx (map SDK.Answer pages ++ rest) = Ret (fs, None) /\
    functionsOf pages !! i = Some fn /\ fs !! i = Some f.

(** [f] is what [GetFunction] returns when the provider answers with the
    configuration [fn]. *)
Definition fetched {parser : SDK.Rfc3339} (ctx : SDK.Context)
    (fn : SDK.FunctionConfiguration) (f : Lambda.Function) : Prop :=
  exists name : string,
    Lambda.GetFunction ctx name
      (SDK.Answer {| SDK.Configuration := Some fn |}) = Ret (Some f, None).

(** ** Concrete inputs *)

(** A configuration as the provider sends it for a deployed function. *)
Definition sampleConfiguration (vars : gmap string string)
  : SDK.FunctionConfiguration :=
  {| SDK.FunctionName := Some "test-function";
     SDK.Runtime := "python3.9";
     SDK.Handler := Some "test_function.lambda_handler";
     SDK.MemorySize := Some 128%Z;
     SDK.Timeout := Some 30%Z;
     SDK.State := "Active";
     SDK.Description := Some "Simple test function for LazyCloud development";
     SDK.LastModified := None;
     SDK.Environment := Some {| SDK.Variables := Some vars |} |}.

(** A function whose variable [FOO] holds the text of the mask, next to a
    sensitive variable and a plain one. *)
Definition fooVariables : gmap string string :=
  <["FOO" := "***masked***"]>
    (<["DB_PASSWORD" := "hunter2"]> (<["APP_NAME" := "LazyCloud"]> ∅)).

Definition fooConfiguration : SDK.FunctionConfiguration :=
  sampleConfiguration fooVariables.

Definition samplePage : SDK.ListFunctionsOutput :=
  {| SDK.Functions := [fooConfiguration]; SDK.NextMarker := None |}.

Definition firstOfTwoPages : SDK.ListFunctionsOutput :=
  {| SDK.Functions := [fooConfiguration]; SDK.NextMarker := Some "page-2" |}.

(** A successful [GetFunction] answer that carries no configuration. *)
Definition emptyAnswer : SDK.GetFunctionOutput :=
  {| SDK.Configuration := None |}.

(** The [Function] both conversions build for [fooConfiguration]. *)
Definition fooFunction : Lambda.Function :=
  {| Lambda.Name := "test-function";
     Lambda.Runtime := "python3.9";
     Lambda.Handler := "test_function.lambda_handler";
     Lambda.Description := "Simple test function for LazyCloud development";
     Lambda.Memory := 128%Z;
     Lambda.Timeout := 30%Z;
     Lambda.LastModified := SDK.zeroTime;
     Lambda.Status := "Active";
     Lambda.Environment :=
       <["FOO" := "***masked***"]>
         (<["DB_PASSWORD" := "***masked***"]>
            (<["APP_NAME" := "LazyCloud"]> ∅)) |}.

Section CoreVocabulary.
Context {Value : Type}.
Import Core.

(** The fetches in flight, by key and session version. *)
Definition fetchIds (b : Broker (Value := Value)) : list (ResourceKey * nat) :=
  map (fun f => (fetchKey f, fetchVersion f)) (inflight b).

(** What holds of the broker between any two events: every handle given
    out either waits on exactly one fetch or has been notified exactly
    once, never both; the fetches in flight belong to the current session;
    no two of them are for the same key; no cache entry is stamped with a
    version of the future. *)
Record consistent (b : Broker (Value := Value)) : Prop := {
  handle_once :
    forall h, occurrences h (waiting b) + occurrences h (notified b)
              = if decide (h < nextHandle b) then 1 else 0;
  fetches_current :
    Forall (fun f => fetchVersion f = version (session b)) (inflight b);
  fetches_exclusive : NoDup (fetchIds b);
  entries_stamped :
    Forall (fun e => sessionVersion e <= version (session b))
           (entries (store b))
}.

(** The broker states that arise from process start through events. *)
Definition reachable (b : Broker (Value := Value)) : Prop :=
  exists account rgn prof cap ttls (es : list (Event (Value := Value))),
    b = steps (newBroker account rgn prof cap ttls) es.







End CoreVocabulary.

(** A session version kept by the client manager would be an observation
    of its state that every change of the region increases. *)
Definition versionedBy (ver : Aws.ClientManager -> nat) : Prop :=
  forall (cm : Aws.ClientManager) (r : string),
    Aws.GetRegion cm <> r -> ver cm < ver (fst (Aws.SetRegion cm r)).

(** Concrete inputs for the broker. *)
Definition sampleBroker : Core.Broker (Value := nat) :=
  Core.newBroker "123456789012" "us-east-1" "default" 2 (fun _ => 60%Z).

Definition sampleKey : Core.ResourceKey :=
  Core.keyFor sampleBroker "function" "".

Definition sampleStore : Core.CacheStore (Value := nat) :=
  {| Core.entries := []; Core.capacity := 2 |}.

(** The sample broker after two requests for the function list, both
    waiting on the one fetch. *)
Definition busyBroker : Core.Broker (Value := nat) :=
  Core.steps sampleBroker
    [Core.EvRequest 1 "function" ""; Core.EvRequest 2 "function" ""].

Definition keyA : Core.ResourceKey :=
  {| Core.kind := "function"; Core.accountIdentifier := "123456789012";
     Core.region := "us-east-1"; Core.extra := "A" |}.

Definition keyB : Core.ResourceKey :=
  {| Core.kind := "function"; Core.accountIdentifier := "123456789012";
     Core.region := "us-east-1"; Core.extra := "B" |}.

Definition keyC : Core.ResourceKey :=
  {| Core.kind := "function"; Core.accountIdentifier := "123456789012";
     Core.region := "us-east-1"; Core.extra := "C" |}.

(** ** Vocabulary of the further properties *)

(** The keywords of [sensitiveKeys] that contain no other keyword. *)
Definition baseKeywords : list string :=
  [ "PASSWORD"; "PASSWD"; "SECRET"; "KEY"; "TOKEN"; "CERT"; "CREDENTIAL" ].

(** An upper-case ASCII letter. *)
Definition upperCase (c : ascii) : bool :=
  (65 <=? nat_of_ascii c)%nat && (nat_of_ascii c <=? 90)%nat.

(** What the masking loop binds a variable to. *)
Definition maskPair (kv : string * string) : string * string :=
  (fst kv, if Lambda.isSensitiveEnvVar (fst kv) then Lambda.masked else snd kv).

(** [f] is the [Function] one of the two conversions built for [fn]. *)
Definition converted {parser : SDK.Rfc3339} (fn : SDK.FunctionConfiguration)
    (f : Lambda.Function) : Prop :=
  (exists ctx, listed ctx fn f) \/ (exists ctx, fetched ctx fn f).

(** The fields a conversion copies from the configuration. *)
Definition copiedFrom (fn : SDK.FunctionConfiguration) (f : Lambda.Function)
  : Prop :=
  SDK.FunctionName fn = Some (Lambda.Name f) /\
  SDK.Handler fn = Some (Lambda.Handler f) /\
  SDK.MemorySize fn = Some (Lambda.Memory f) /\
  SDK.Timeout fn = Some (Lambda.Timeout f) /\
  Lambda.Runtime f = SDK.Runtime fn /\
  Lambda.Status f = SDK.State fn.

(** Every client of the manager is configured as the manager is, and for
    the region [GetRegion] reports. *)
Definition coherent (cm : Aws.ClientManager) : Prop :=
  Aws.GetRegion cm = Aws.Region (Aws.config cm) /\
  Aws.lambdaOptions (Aws.GetLambdaClient cm) = Aws.config cm /\
  Aws.s3Options (Aws.GetS3Client cm) = Aws.config cm /\
  Aws.ecsOptions (Aws.GetECSClient cm) = Aws.config cm.

(** The line of the details pane for one environment variable. *)
Definition envLine (kv : string * string) : string :=
  "  " +:+ fst kv +:+ " = " +:+ snd kv +:+ LambdaScreen.nl.

(** The text of a list item for a function. *)
Definition itemFor (i : nat) (fn : Lambda.Function) : LambdaScreen.ListItem :=
  {| LambdaScreen.mainText :=
       (if String.eqb (Lambda.Status fn) "Active"
        then "[green]" else "[yellow]")
       +:+ LambdaScreen.bullet +:+ "[white] " +:+ Lambda.Name fn;
     LambdaScreen.secondaryText :=
       Lambda.Runtime fn +:+ " | " +:+ pretty (Lambda.Memory fn) +:+ "MB | "
       +:+ pretty (Lambda.Timeout fn) +:+ "s timeout";
     LambdaScreen.shortcut := LambdaScreen.toRune (49 + Z.of_nat i) |}.

(** Concrete inputs. *)
Definition localEnvironment (x : string) : string :=
  if String.eqb x "AWS_ENDPOINT_URL" then "http://example.test:9000" else "".

Definition otherEnvironment (x : string) : string :=
  if String.eqb x "AWS_ENDPOINT_URL" then "http://localhost:1" else "".

Definition sampleWidgets : LambdaScreen.Widgets :=
  {| LambdaScreen.functionList := [];
     LambdaScreen.currentItem := 0;
     LambdaScreen.functionDetail := "" |}.

Definition fooView : LambdaView.View :=
  {| LambdaView.functions := [fooFunction];
     LambdaView.loading := false;
     LambdaView.statusUpdates := ∅ |}.

(** A configuration without a function name. *)
Definition namelessConfiguration : SDK.FunctionConfiguration :=
  {| SDK.FunctionName := None;
     SDK.Runtime := "python3.9";
     SDK.Handler := Some "index.handler";
     SDK.MemorySize := Some 128%Z;
     SDK.Timeout := Some 3%Z;
     SDK.State := "Pending";
     SDK.Description := None;
     SDK.LastModified := None;
     SDK.Environment := None |}.

Definition namelessPage : SDK.ListFunctionsOutput :=
  {| SDK.Functions := [fooConfiguration; namelessConfiguration];
     SDK.NextMarker := None |}.

(** The configuration a function would have if its masked environment were
    sent again. *)
Definition maskedConfiguration : SDK.FunctionConfiguration :=
  sampleConfiguration (Lambda.Environment fooFunction).

(** An environment without any of the variables the program reads. *)
Definition emptyEnvironment (x : string) : string := "".

(** A layout and a range order to run the details pane with. *)
Definition secondsLayout : LambdaScreen.TimeLayout := fun t => pretty t.

Definition listOrder : LambdaScreen.MapRange := fun m => map_to_list m.

(** A wording of the SDK's operation errors to run the view with. *)
Definition lambdaErrorText : ErrorText := fun cause =>
  match cause with
  | DeadlineExceeded =>
      "operation error Lambda: ListFunctions, "
      +:+ "request canceled, context deadline exceeded"
  | _ => "operation error Lambda: ListFunctions"
  end.

(** ** Strings *)

Lemma append_cons (x : ascii) (a b : string) :
  String x a +:+ b = String x (a +:+ b).
Proof. reflexivity. Qed.

Lemma append_nil (b : string) : "" +:+ b = b.
Proof. reflexivity. Qed.

Lemma append_empty_r (a : string) : a +:+ "" = a.
Proof.
  induction a as [|x a IH]; [reflexivity|]. now rewrite append_cons, IH.
Qed.

Lemma length_append (a b : string) :
  String.length (a +:+ b) = String.length a + String.length b.
Proof.
  induction a as [|x a IH]; [reflexivity|].
  rewrite append_cons. simpl. now rewrite IH.
Qed.

(** [s[0:len(t)] == t] says that [t] is a prefix of [s]. *)
Lemma substring_prefix (t s : string) :
  substring 0 (String.length t) s = t <-> exists post, s = t +:+ post.
Proof.
  revert s. induction t as [|c t IH]; intros s; simpl.
  - split; [intros _; now exists s | intros _; now destruct s].
  - destruct s as [|d s]; simpl.
    + split; [discriminate | intros [post H]; discriminate].
    + split.
      * intros H. injection H as -> H. apply IH in H as [post ->].
        now exists post.
      * intros [post H]. rewrite append_cons in H. injection H as -> H.
        f_equal. apply IH. now exists post.
Qed.

(** [s[i:i+len(t)] == t] says that [t] occurs in [s] at offset [i]. *)
Lemma substring_at (t s : string) (i : nat) :
  i + String.length t <= String.length s ->
  substring i (String.length t) s = t <->
  exists pre post, s = pre +:+ t +:+ post /\ String.length pre = i.
Proof.
  revert s. induction i as [|i IH]; intros s Hlen.
  - rewrite substring_prefix. split.
    + intros [post ->]. now exists "", post.
    + intros (pre & post & -> & Hpre). destruct pre; [|discriminate].
      now exists post.
  - destruct s as [|d s]; simpl in Hlen; [lia|].
    change (substring (S i) (String.length t) (String d s))
      with (substring i (String.length t) s).
    rewrite IH by lia. split.
    + intros (pre & post & -> & Hpre). exists (String d pre), post.
      rewrite append_cons. simpl. now rewrite Hpre.
    + intros (pre & post & H & Hpre). destruct pre as [|e pre]; [discriminate|].
      rewrite append_cons in H. simpl in Hpre. injection H as -> ->.
      exists pre, post. split; [reflexivity | lia].
Qed.

Lemma scanFrom_true (s t : string) (i n : nat) :
  Lambda.scanFrom s t i n = true <->
  exists j, i <= j < i + n /\ substring j (String.length t) s = t.
Proof.
  revert i. induction n as [|n IH]; intros i; simpl.
  - split; [discriminate | intros (j & ? & _); lia].
  - destruct (String.eqb_spec (substring i (String.length t) s) t) as [E|E].
    + split; [intros _; exists i; split; [lia | exact E] | reflexivity].
    + rewrite IH. split.
      * intros (j & ? & H). exists j. split; [lia | exact H].
      * intros (j & ? & H). exists j. split; [|exact H].
        destruct (decide (j = i)) as [->|]; [contradiction | lia].
Qed.

(** One keyword: the guard and the scan of [isSensitiveEnvVar] decide
    exactly whether the keyword occurs in the key. *)
Lemma matchesKeyword_contains (s t : string) :
  Lambda.matchesKeyword s t = true <-> contains t s.
Proof.
  unfold Lambda.matchesKeyword, contains. split.
  - destruct (_ || _) eqn:G; [|discriminate].
    intros H. apply scanFrom_true in H as (j & Hj & H).
    assert (String.length t <= String.length s) as Hle.
    { apply orb_true_iff in G as [G|G].
      - apply String.eqb_eq in G as ->. lia.
      - apply Nat.ltb_lt in G. lia. }
    apply substring_at in H as (pre & post & -> & _); [|lia]. now exists pre, post.
  - intros (pre & post & ->).
    assert (String.length (pre +:+ t +:+ post)
            = String.length pre + String.length t + String.length post) as L.
    { rewrite !length_append. lia. }
    assert ((String.eqb (pre +:+ t +:+ post) t
             || (String.length t <? String.length (pre +:+ t +:+ post))%nat)
            = true) as ->.
    { destruct (Nat.ltb_spec (String.length t)
                  (String.length (pre +:+ t +:+ post))) as [|Hge];
        [now rewrite orb_true_r|].
      rewrite orb_false_r. apply String.eqb_eq.
      assert (String.length pre = 0 /\ String.length post = 0) as [Hp Hq] by lia.
      destruct pre; [|discriminate]. destruct post; [|discriminate].
      rewrite append_nil. apply append_empty_r. }
    apply scanFrom_true. exists (String.length pre). split; [lia|].
    apply substring_at; [lia|]. now exists pre, post.
Qed.

Lemma isSensitiveEnvVar_spec (k : string) :
  Lambda.isSensitiveEnvVar k = true <-> hasSensitiveKeyword k.
Proof.
  unfold Lambda.isSensitiveEnvVar, hasSensitiveKeyword.
  rewrite existsb_exists. split.
  - intros (w & Hin & H). exists w. split; [exact Hin|].
    now apply matchesKeyword_contains.
  - intros (w & Hin & H). exists w. split; [exact Hin|].
    now apply matchesKeyword_contains.
Qed.

(** ** The conversion of a function configuration *)

Section Conversion.
Context {parser : SDK.Rfc3339}.
Import SDK Lambda.

(** The loop over [fn.Environment.Variables]: whatever order the map is
    ranged over, every key is bound once, to the mask or to its value. *)
Lemma masking_loop_lookup (vars : gmap string string) (k : string) :
  map_fold (fun k v (acc : gmap string string) =>
              if isSensitiveEnvVar k then <[k := masked]> acc
              else <[k := v]> acc) ∅ vars !! k
  = (fun v => if isSensitiveEnvVar k then masked else v) <$> vars !! k.
Proof.
  revert k.
  apply (map_fold_weak_ind
           (fun (r : gmap string string) (m : gmap string string) =>
              forall k, r !! k
                = (fun v => if isSensitiveEnvVar k then masked else v)
                    <$> m !! k)).
  - intros k. now rewrite !lookup_empty.
  - intros i x m r Hi IH k.
    destruct (decide (i = k)) as [->|Hne].
    + rewrite lookup_insert_eq. simpl.
      destruct (isSensitiveEnvVar k); now rewrite lookup_insert_eq.
    + rewrite (lookup_insert_ne m) by exact Hne. rewrite <- IH.
      destruct (isSensitiveEnvVar i); now rewrite lookup_insert_ne.
Qed.

Lemma listedFunction_inv (fn : FunctionConfiguration) (f : Function) :
  listedFunction fn = Ret f ->
  FunctionName fn = Some (Name f) /\ SDK.Handler fn = Some (Handler f) /\
  MemorySize fn = Some (Memory f) /\ SDK.Timeout fn = Some (Timeout f) /\
  Runtime f = SDK.Runtime fn /\ Status f = State fn /\
  Description f = default "" (SDK.Description fn) /\
  LastModified f = default zeroTime (SDK.LastModified fn ≫= Parse) /\
  forall k, Environment f !! k = maskedLookup fn k.
Proof.
  unfold listedFunction, maskedLookup, variablesOf.
  destruct fn as [n rt h m t st d lm env]; simpl.
  destruct n, h, m, t; simpl; try discriminate.
  destruct d; (destruct lm as [ts|]; [destruct (Parse ts) eqn:P|]);
    (destruct env as [[[vars|]]|]); simpl; intros [= <-]; simpl;
    rewrite ?P; simpl; repeat split; intros k;
    first [apply masking_loop_lookup | apply lookup_empty].
Qed.

Lemma listedFunction_total (fn : FunctionConfiguration) :
  requiredFields fn -> exists f, listedFunction fn = Ret f.
Proof.
  intros ([n Hn] & [h Hh] & [m Hm] & [t Ht]).
  unfold listedFunction. rewrite Hn, Hh, Hm, Ht. simpl. eauto.
Qed.

Lemma listedFunction_no_hang (fn : FunctionConfiguration) :
  listedFunction fn <> Hang.
Proof.
  unfold listedFunction.
  destruct (FunctionName fn), (SDK.Handler fn), (MemorySize fn),
    (SDK.Timeout fn); simpl; discriminate.
Qed.

Lemma listedFunction_panics (fn : FunctionConfiguration) :
  listedFunction fn = Panic -> ~ requiredFields fn.
Proof.
  intros H Hreq. apply listedFunction_total in Hreq as [f Hf]. congruence.
Qed.

(** What [GetFunction] returns for an answer that carries [fn]. *)
Lemma GetFunction_answer (ctx : Context) (name : string)
    (fn : FunctionConfiguration) :
  GetFunction ctx name (Answer {| Configuration := Some fn |})
  = f ← listedFunction fn; Ret (Some f, None).
Proof.
  unfold GetFunction, listedFunction. simpl.
  destruct fn as [n rt h m t st d lm env]; simpl.
  destruct n, h, m, t; simpl; try reflexivity.
  do 3 f_equal.
  destruct d, lm as [ts|]; simpl; try destruct (Parse ts);
    destruct env as [[[vars|]]|]; reflexivity.
Qed.

Lemma appendPage_app (acc : list Function) (l1 l2 : list FunctionConfiguration) :
  appendPage acc (l1 ++ l2) = acc1 ← appendPage acc l1; appendPage acc1 l2.
Proof.
  revert acc. induction l1 as [|fn l1 IH]; intros acc; simpl; [reflexivity|].
  destruct (listedFunction fn); simpl; [apply IH | reflexivity | reflexivity].
Qed.

Lemma appendPage_total (acc : list Function) (l : list FunctionConfiguration) :
  Forall requiredFields l -> exists fs, appendPage acc l = Ret fs.
Proof.
  intros H. revert acc. induction H as [|fn l Hfn _ IH]; intros acc; simpl.
  - eauto.
  - destruct (listedFunction_total fn Hfn) as [f ->]. simpl. apply IH.
Qed.

Lemma appendPage_no_hang (acc : list Function) (l : list FunctionConfiguration) :
  appendPage acc l <> Hang.
Proof.
  revert acc. induction l as [|fn l IH]; intros acc; simpl; [discriminate|].
  destruct (listedFunction fn) eqn:E; simpl;
    [apply IH | discriminate | now apply listedFunction_no_hang in E].
Qed.

(** The functions appended for a page are the conversions of its
    configurations, in order, after what was accumulated before. *)
Lemma appendPage_inv (acc fs : list Function) (l : list FunctionConfiguration) :
  appendPage acc l = Ret fs ->
  exists new, fs = acc ++ new /\
    Forall2 (fun fn f => listedFunction fn = Ret f) l new.
Proof.
  revert acc. induction l as [|fn l IH]; intros acc; simpl.
  - intros [= <-]. exists []. split; [now rewrite app_nil_r | constructor].
  - destruct (listedFunction fn) as [f| |] eqn:E; simpl; try discriminate.
    intros H. apply IH in H as (new & -> & Hnew).
    exists (f :: new). split; [now rewrite <- app_assoc | now constructor].
Qed.

End Conversion.

(** ** The pagination loop *)

Section Listing.
Context {parser : SDK.Rfc3339}.
Import SDK Lambda.

Lemma listLoop_done (ctx : Context) (p : Paginator) (acc : list Function)
    (script : list (Reply ListFunctionsOutput)) :
  HasMorePages p = false -> listLoop ctx p acc script = Ret (acc, None).
Proof. intros H. destruct script; simpl; now rewrite H. Qed.

Lemma listLoop_answer (ctx : Context) (p : Paginator) (acc : list Function)
    (out : ListFunctionsOutput) (script : list (Reply ListFunctionsOutput)) :
  HasMorePages p = true ->
  listLoop ctx p acc (Answer out :: script)
  = acc' ← appendPage acc (Functions out);
    listLoop ctx {| firstPage := false; nextToken := NextMarker out |}
      acc' script.
Proof. intros H. simpl. now rewrite H. Qed.

(** A failed page request ends the loop with the nil list and that error. *)
Lemma listLoop_error (ctx : Context) (p : Paginator) (acc : list Function)
    (r : Reply ListFunctionsOutput) (script : list (Reply ListFunctionsOutput))
    (e : error) :
  HasMorePages p = true -> call ctx r = Ret (inr e) ->
  listLoop ctx p acc (r :: script) = Ret ([], Some e).
Proof.
  intros H Hc. simpl. rewrite H. unfold NextPage. now rewrite Hc.
Qed.

(** When the replies are used up the provider is silent. *)
Lemma listLoop_silent (ctx : Context) (p : Paginator) (acc : list Function) :
  listLoop ctx p acc [] = listLoop ctx p acc [NoAnswer].
Proof.
  simpl. destruct (HasMorePages p); [|reflexivity].
  unfold NextPage, call. now destruct (deadline ctx).
Qed.

(** The loop over a run of answered pages that all announce a next page. *)
Lemma listLoop_pages (ctx : Context) (pages : list ListFunctionsOutput) :
  forall (p : Paginator) (acc acc' : list Function)
         (rest : list (Reply ListFunctionsOutput)),
    HasMorePages p = true ->
    Forall (fun out => morePages out = true) pages ->
    appendPage acc (functionsOf pages) = Ret acc' ->
    exists p', HasMorePages p' = true /\
      listLoop ctx p acc (map Answer pages ++ rest) = listLoop ctx p' acc' rest.
Proof.
  induction pages as [|out pages IH]; intros p acc acc' rest Hp Hall Happ.
  - simpl in Happ. injection Happ as <-. now exists p.
  - apply Forall_cons in Hall as [Hout Hall].
    unfold functionsOf in Happ. simpl in Happ. rewrite appendPage_app in Happ.
    destruct (appendPage acc (Functions out)) as [acc1| |] eqn:E;
      simpl in Happ; try discriminate.
    destruct (IH {| firstPage := false; nextToken := NextMarker out |}
                acc1 acc' rest Hout Hall Happ) as (p' & Hp' & Heq).
    exists p'. split; [exact Hp'|].
    simpl map. simpl app. rewrite listLoop_answer by exact Hp.
    rewrite E. simpl. exact Heq.
Qed.

Lemma listLoop_nil_on_error (ctx : Context)
    (script : list (Reply ListFunctionsOutput)) :
  forall (p : Paginator) (acc fs : list Function) (e : error),
    listLoop ctx p acc script = Ret (fs, Some e) -> fs = [].
Proof.
  induction script as [|r script IH]; intros p acc fs e; simpl.
  - destruct (HasMorePages p); [|discriminate].
    unfold NextPage, call. destruct (deadline ctx); simpl; congruence.
  - destruct (HasMorePages p); [|discriminate].
    unfold NextPage. destruct (call ctx r) as [[out|err]| |]; simpl;
      try discriminate; [|congruence].
    destruct (appendPage acc (Functions out)) as [acc1| |]; simpl;
      try discriminate.
    apply IH.
Qed.

(** A list is returned only after a run of answered pages, the last of
    which announces no next page; it holds the conversions of all their
    functions, in order. *)
Lemma listLoop_success (ctx : Context)
    (script : list (Reply ListFunctionsOutput)) :
  forall (p : Paginator) (acc fs : list Function),
    HasMorePages p = true ->
    listLoop ctx p acc script = Ret (fs, None) ->
    exists (pages : list ListFunctionsOutput) (last : ListFunctionsOutput)
           (rest : list (Reply ListFunctionsOutput)),
      script = map Answer (pages ++ [last]) ++ rest /\
      Forall (fun out => morePages out = true) pages /\
      morePages last = false /\
      appendPage acc (functionsOf (pages ++ [last])) = Ret fs.
Proof.
  induction script as [|r script IH]; intros p acc fs Hp; simpl; rewrite Hp.
  - unfold NextPage, call. destruct (deadline ctx); simpl; discriminate.
  - unfold NextPage. destruct r as [out|err|]; simpl; try discriminate.
    + destruct (appendPage acc (Functions out)) as [acc1| |] eqn:E; simpl;
        try discriminate.
      destruct (morePages out) eqn:M.
      * intros H. apply IH in H as (pages & last & rest & -> & Hall & Hl & Happ);
          [|exact M].
        exists (out :: pages), last, rest. repeat split; auto.
        unfold functionsOf in *. simpl. rewrite appendPage_app, E. exact Happ.
      * rewrite listLoop_done by exact M. intros [= <-].
        exists [], out, script. repeat split; auto.
        unfold functionsOf. simpl. now rewrite app_nil_r.
    + destruct (deadline ctx); simpl; discriminate.
Qed.

(** The [i]-th function returned is the conversion of the [i]-th
    configuration answered. *)
Lemma listLoop_elements (ctx : Context) (pages : list ListFunctionsOutput) :
  forall (rest : list (Reply ListFunctionsOutput)) (p : Paginator)
         (acc fs : list Function),
    listLoop ctx p acc (map Answer pages ++ rest) = Ret (fs, None) ->
    exists new, fs = acc ++ new /\
      forall i fn f, functionsOf pages !! i = Some fn -> new !! i = Some f ->
                     listedFunction fn = Ret f.
Proof.
  induction pages as [|out pages IH]; intros rest p acc fs H.
  - assert (exists new, fs = acc ++ new) as [new ->].
    { clear -H. simpl in H. revert p acc H.
      induction rest as [|r rest IH]; intros p acc; simpl.
      - destruct (HasMorePages p).
        + unfold NextPage, call. destruct (deadline ctx); simpl; discriminate.
        + intros [= <-]. exists []. now rewrite app_nil_r.
      - destruct (HasMorePages p).
        + unfold NextPage. destruct (call ctx r) as [[out|err]| |]; simpl;
            try discriminate.
          destruct (appendPage acc (Functions out)) as [acc1| |] eqn:E; simpl;
            try discriminate.
          intros H. apply IH in H as [new ->].
          apply appendPage_inv in E as (new1 & -> & _).
          exists (new1 ++ new). now rewrite app_assoc.
        + intros [= <-]. exists []. now rewrite app_nil_r. }
    exists new. split; [reflexivity|]. intros i fn f Hi. now destruct i.
  - simpl in H. destruct (HasMorePages p) eqn:Hp.
    + unfold NextPage in H. simpl in H.
      destruct (appendPage acc (Functions out)) as [acc1| |] eqn:E; simpl in H;
        try discriminate.
      apply IH in H as (new2 & -> & Hnew2).
      apply appendPage_inv in E as (new1 & -> & Hnew1).
      exists (new1 ++ new2). split; [now rewrite app_assoc|].
      intros i fn f Hi Hf. unfold functionsOf in Hi. simpl in Hi.
      pose proof (Forall2_length _ _ _ Hnew1) as Hlen.
      destruct (decide (i < length new1)) as [Hlt|Hge].
      * rewrite lookup_app_l in Hi by lia. rewrite lookup_app_l in Hf by lia.
        exact (Forall2_lookup_lr _ _ _ _ _ _ Hnew1 Hi Hf).
      * rewrite lookup_app_r in Hi by lia. rewrite lookup_app_r in Hf by lia.
        rewrite Hlen in Hi. eapply Hnew2; eauto.
    + injection H as <-. exists []. split; [now rewrite app_nil_r|].
      intros i fn f _ Hf. now destruct i.
Qed.

Lemma listed_conversion (ctx : Context) (fn : FunctionConfiguration)
    (f : Function) :
  listed ctx fn f -> listedFunction fn = Ret f.
Proof.
  intros (pages & rest & fs & i & H & Hfn & Hf).
  apply listLoop_elements in H as (new & -> & Hnew).
  simpl in Hf. eauto.
Qed.

Lemma single_page (ctx : Context) (fn : FunctionConfiguration) :
  ListFunctions ctx [Answer {| Functions := [fn]; NextMarker := None |}]
  = f ← listedFunction fn; Ret ([f], None).
Proof.
  unfold ListFunctions. simpl.
  destruct (listedFunction fn); reflexivity.
Qed.

(** A context with a deadline never leaves the loop waiting. *)
Lemma listLoop_returns (ctx : Context)
    (script : list (Reply ListFunctionsOutput)) :
  is_Some (deadline ctx) ->
  forall (p : Paginator) (acc : list Function),
    listLoop ctx p acc script <> Hang.
Proof.
  intros [d Hd]. induction script as [|r script IH]; intros p acc; simpl.
  - destruct (HasMorePages p); [|discriminate].
    unfold NextPage, call. rewrite Hd. simpl. discriminate.
  - destruct (HasMorePages p); [|discriminate].
    unfold NextPage, call. destruct r as [out|err|]; simpl; try discriminate.
    + destruct (appendPage acc (Functions out)) as [acc1| |] eqn:E; simpl;
        [apply IH | discriminate | now apply appendPage_no_hang in E].
    + rewrite Hd. simpl. discriminate.
Qed.

(** With every required field present the loop does not panic. *)
Lemma listLoop_no_panic (ctx : Context)
    (script : list (Reply ListFunctionsOutput)) :
  (forall out, In (Answer out) script -> Forall requiredFields (Functions out)) ->
  forall (p : Paginator) (acc : list Function),
    listLoop ctx p acc script <> Panic.
Proof.
  induction script as [|r script IH]; intros Hreq p acc; simpl.
  - destruct (HasMorePages p); [|discriminate].
    unfold NextPage, call. destruct (deadline ctx); simpl; discriminate.
  - destruct (HasMorePages p); [|discriminate].
    unfold NextPage, call. destruct r as [out|err|]; simpl; try discriminate.
    + destruct (appendPage_total acc (Functions out)) as [acc1 ->].
      { apply Hreq. now left. }
      simpl. apply IH. intros out' Hin. apply Hreq. now right.
    + destruct (deadline ctx); simpl; discriminate.
Qed.

End Listing.

(** ** Claims about the Lambda service *)

Section LambdaClaims.
Context {parser : SDK.Rfc3339}.
Import SDK Lambda.

(** C5, as the source has it. For every environment variable [k] with
    value [v] of a listed or fetched function, the returned [Environment]
    binds [k] to the mask when [k] contains one of the fixed sensitive
    keywords as a contiguous substring, and to [v] otherwise; hence [k] is
    bound to the mask only if it contains a keyword or [v] already is the
    text of the mask. A key the provider did not send is not bound. *)
Theorem environment_masking (ctx : Context) (fn : FunctionConfiguration)
    (f : Function) (vars : gmap string string) (k : string) :
  listed ctx fn f \/ fetched ctx fn f ->
  variablesOf fn = Some vars ->
  match vars !! k with
  | Some v =>
      (hasSensitiveKeyword k -> Environment f !! k = Some masked) /\
      (~ hasSensitiveKeyword k -> Environment f !! k = Some v) /\
      (Environment f !! k = Some masked -> hasSensitiveKeyword k \/ v = masked)
  | None => Environment f !! k = None
  end.
Proof.
  intros Hf Hvars.
  assert (listedFunction fn = Ret f) as Hl.
  { destruct Hf as [Hf|[name Hf]].
    - now apply listed_conversion in Hf.
    - rewrite GetFunction_answer in Hf.
      destruct (listedFunction fn) as [g| |]; simpl in Hf; congruence. }
  apply listedFunction_inv in Hl as (_ & _ & _ & _ & _ & _ & _ & _ & Henv).
  rewrite Henv. unfold maskedLookup. rewrite Hvars.
  destruct (vars !! k) as [v|]; simpl; [|reflexivity].
  destruct (isSensitiveEnvVar k) eqn:E.
  - apply isSensitiveEnvVar_spec in E. repeat split; tauto.
  - assert (~ hasSensitiveKeyword k) as N.
    { rewrite <- isSensitiveEnvVar_spec. congruence. }
    repeat split; [tauto | intros [= ->]; now right].
Qed.

(** C8. [ListFunctions] is all-or-nothing over pagination. Whenever it
    returns an error the list it returns is nil; when a page request fails
    after any run of answered pages, it returns nil and that error, and the
    functions accumulated from the earlier pages are dropped; and it
    returns a list with a nil error only when every page requested was
    answered, up to one that announces no next page, the list holding the
    functions of all those pages. *)
Theorem ListFunctions_all_or_nothing (ctx : Context)
    (script : list (Reply ListFunctionsOutput)) :
  (forall fs e, ListFunctions ctx script = Ret (fs, Some e) -> fs = []) /\
  (forall pages r rest acc e,
      script = map Answer pages ++ r :: rest ->
      Forall (fun out => morePages out = true) pages ->
      appendPage [] (functionsOf pages) = Ret acc ->
      call ctx r = Ret (inr e) ->
      ListFunctions ctx script = Ret ([], Some e)) /\
  (forall fs,
      ListFunctions ctx script = Ret (fs, None) ->
      exists pages last rest,
        script = map Answer (pages ++ [last]) ++ rest /\
        Forall (fun out => morePages out = true) pages /\
        morePages last = false /\
        appendPage [] (functionsOf (pages ++ [last])) = Ret fs).
Proof.
  unfold ListFunctions. repeat split.
  - intros fs e. apply listLoop_nil_on_error.
  - intros pages r rest acc e -> Hall Happ Hcall.
    destruct (listLoop_pages ctx pages NewListFunctionsPaginator [] acc
                (r :: rest) eq_refl Hall Happ) as (p' & Hp' & ->).
    now apply listLoop_error.
  - intros fs. now apply listLoop_success.
Qed.

(** C9. [ListFunctions] and [GetFunction] build equal [Function] records
    from the same function configuration: a function listed for [fn] is the
    function [GetFunction] returns for [fn], and conversely; the record
    has the empty [Description] when the configuration has none, the zero
    [LastModified] when the timestamp is absent or does not parse as
    RFC3339, and the same masked environment. *)
Theorem conversions_agree (ctx ctx' : Context) (name : string)
    (fn : FunctionConfiguration) :
  (forall f, listed ctx fn f ->
     GetFunction ctx' name (Answer {| Configuration := Some fn |})
     = Ret (Some f, None)) /\
  (forall g,
     GetFunction ctx' name (Answer {| Configuration := Some fn |})
     = Ret (Some g, None) ->
     ListFunctions ctx [Answer {| Functions := [fn]; NextMarker := None |}]
     = Ret ([g], None) /\
     (SDK.Description fn = None -> Description g = "") /\
     (SDK.LastModified fn = None \/
      (exists s, SDK.LastModified fn = Some s /\ Parse s = None) ->
      LastModified g = zeroTime) /\
     (forall k, Environment g !! k = maskedLookup fn k)).
Proof.
  split.
  - intros f Hf. apply listed_conversion in Hf.
    rewrite GetFunction_answer, Hf. reflexivity.
  - intros g Hg. rewrite GetFunction_answer in Hg.
    destruct (listedFunction fn) as [f| |] eqn:E; simpl in Hg; try discriminate.
    injection Hg as ->.
    rewrite single_page, E. split; [reflexivity|].
    apply listedFunction_inv in E
      as (_ & _ & _ & _ & _ & _ & Hd & Hlm & Henv).
    repeat split.
    + intros Hnone. now rewrite Hd, Hnone.
    + intros [Hnone|(s & Hs & Hp)]; rewrite Hlm.
      * now rewrite Hnone.
      * rewrite Hs. simpl. now rewrite Hp.
    + exact Henv.
Qed.

(** C10, as the source has it. When every function configuration the
    provider returns has non-nil [FunctionName], [Handler], [MemorySize]
    and [Timeout], and the output of a successful [GetFunction] call
    carries a non-nil [Configuration], the conversions of [ListFunctions]
    and of [GetFunction] do not panic. *)
Theorem conversion_panic_free (ctx : Context) :
  (forall script,
      (forall out, In (Answer out) script ->
                   Forall requiredFields (Functions out)) ->
      ListFunctions ctx script <> Panic) /\
  (forall name reply,
      (forall out, reply = Answer out ->
         exists fn, Configuration out = Some fn /\ requiredFields fn) ->
      GetFunction ctx name reply <> Panic).
Proof.
  split.
  - intros script Hreq. now apply listLoop_no_panic.
  - intros name reply Hreq. destruct reply as [out|err|].
    + destruct (Hreq out eq_refl) as (fn & Hfn & Hf).
      destruct out as [cfg]. simpl in Hfn. subst cfg.
      rewrite GetFunction_answer.
      destruct (listedFunction_total fn Hf) as [f ->]. discriminate.
    + discriminate.
    + unfold GetFunction, call. destruct (deadline ctx); discriminate.
Qed.

End LambdaClaims.

Lemma FOO_has_no_keyword : ~ hasSensitiveKeyword "FOO".
Proof. rewrite <- isSensitiveEnvVar_spec. vm_compute. discriminate. Qed.

Lemma fooFunction_listed :
  listed (parser := SDK.rejecting) LambdaView.loadContext
    fooConfiguration fooFunction.
Proof.
  exists [samplePage], [], [fooFunction], 0.
  repeat split; vm_compute; reflexivity.
Qed.

(** C5 fails as stated: [FOO] contains no keyword, yet the listed function
    binds it to the mask, because the mask is its value. *)
Lemma environment_masking_not_iff :
  listed (parser := SDK.rejecting) LambdaView.loadContext
    fooConfiguration fooFunction /\
  variablesOf fooConfiguration = Some fooVariables /\
  fooVariables !! "FOO" = Some "***masked***" /\
  ~ (Lambda.Environment fooFunction !! "FOO" = Some Lambda.masked
     <-> hasSensitiveKeyword "FOO").
Proof.
  split; [exact fooFunction_listed|].
  split; [reflexivity|].
  split; [vm_compute; reflexivity|].
  intros [H _]. apply FOO_has_no_keyword, H. vm_compute. reflexivity.
Qed.

Lemma environment_masking_witness :
  (listed (parser := SDK.rejecting) LambdaView.loadContext
     fooConfiguration fooFunction \/
   fetched (parser := SDK.rejecting) LambdaView.loadContext
     fooConfiguration fooFunction) /\
  variablesOf fooConfiguration = Some fooVariables /\
  match fooVariables !! "DB_PASSWORD" with
  | Some v =>
      (hasSensitiveKeyword "DB_PASSWORD" ->
       Lambda.Environment fooFunction !! "DB_PASSWORD" = Some Lambda.masked) /\
      (~ hasSensitiveKeyword "DB_PASSWORD" ->
       Lambda.Environment fooFunction !! "DB_PASSWORD" = Some v) /\
      (Lambda.Environment fooFunction !! "DB_PASSWORD" = Some Lambda.masked ->
       hasSensitiveKeyword "DB_PASSWORD" \/ v = Lambda.masked)
  | None => Lambda.Environment fooFunction !! "DB_PASSWORD" = None
  end.
Proof.
  assert (listed (parser := SDK.rejecting) LambdaView.loadContext
            fooConfiguration fooFunction) as Hlisted.
  { exists [samplePage], [], [fooFunction], 0.
    repeat split; vm_compute; reflexivity. }
  split; [left; exact Hlisted|].
  split; [reflexivity|].
  apply (environment_masking (parser := SDK.rejecting) LambdaView.loadContext
           fooConfiguration fooFunction fooVariables "DB_PASSWORD").
  - left. exact Hlisted.
  - reflexivity.
Defined.

(** C10 fails as stated: a successful [GetFunction] answer without a
    configuration meets the precondition on configurations, and the
    conversion panics on it. *)
Lemma GetFunction_panics_without_configuration :
  (forall fn, SDK.Configuration emptyAnswer = Some fn -> requiredFields fn) /\
  Lambda.GetFunction (parser := SDK.rejecting) LambdaView.loadContext
    "test-function" (SDK.Answer emptyAnswer) = Panic.
Proof. split; [discriminate | reflexivity]. Qed.

(** ** The cache store *)

Section CacheStore.
Context {Value : Type}.
Import Core.
Implicit Types (s : CacheStore (Value := Value)) (k : ResourceKey).


Lemma lookupEntry_Some k (es : list CacheEntry) (e : CacheEntry) :
  lookupEntry (Value := Value) k es = Some e -> In e es /\ key e = k.
Proof.
  induction es as [|e' es IH]; simpl; [discriminate|].
  destruct (bool_decide (key e' = k)) eqn:E.
  - intros [= ->]. apply bool_decide_eq_true in E. now split; [left|].
  - intros H. apply IH in H as [H1 H2]. now split; [right|].
Qed.

(** A [Get] that misses leaves the store as it is. *)
Lemma Get_miss_store s (current : nat) (now : Z) k :
  fst (Get current now k s) = None -> snd (Get current now k s) = s.
Proof.
  unfold Get. destruct (lookupEntry k (entries s)) as [e|]; [|reflexivity].
  destruct (valid current now e); [discriminate | reflexivity].
Qed.

(** A miss stays a miss as time passes. *)
Lemma Get_miss_later s (current : nat) (now now' : Z) k :
  (now <= now')%Z ->
  fst (Get current now k s) = None -> fst (Get current now' k s) = None.
Proof.
  unfold Get, valid. intros Hle.
  destruct (lookupEntry k (entries s)) as [e|]; [|reflexivity].
  destruct (bool_decide (sessionVersion e = current));
    rewrite ?andb_false_r, ?andb_true_r; [|reflexivity].
  destruct (bool_decide (now - storedAt e < ttl e)%Z) eqn:E1; [discriminate|].
  intros _. apply bool_decide_eq_false in E1.
  rewrite bool_decide_eq_false_2 by lia. reflexivity.
Qed.

(** A value [Get] returns was stored under the current session version
    and has not expired. *)
Lemma Get_hit s (current : nat) (now : Z) k (v : Value) :
  fst (Get current now k s) = Some v ->
  exists e, In e (entries s) /\ key e = k /\ value e = v /\
            sessionVersion e = current /\ (now - storedAt e < ttl e)%Z.
Proof.
  unfold Get. destruct (lookupEntry k (entries s)) as [e|] eqn:L; [|discriminate].
  destruct (valid current now e) eqn:V; [|discriminate].
  intros [= <-]. apply lookupEntry_Some in L as [Hin Hk].
  unfold valid in V. apply andb_true_iff in V as [V1 V2].
  apply bool_decide_eq_true in V1, V2. exists e. auto.
Qed.

Lemma lookupEntry_Put s (current : nat) (now t : Z) k (v : Value) :
  0 < capacity s ->
  lookupEntry k (entries (Put current now k v t s))
  = Some {| key := k; value := v; storedAt := now; ttl := t;
            sessionVersion := current |}.
Proof.
  intros Hcap. unfold Put. simpl.
  destruct (capacity s) as [|n]; [lia|]. simpl.
  now rewrite bool_decide_eq_true_2.
Qed.

(** C1. TTL correctness of the cache store: after [Put(K, V, ttl=t)] at
    time [stored], a [Get(K)] at a time strictly before [stored + t]
    returns [(V, true)], and a [Get(K)] at or after [stored + t], so at any
    time strictly after it, returns found=false. The store holds at least
    one entry and the session is not switched in between. *)
Theorem cache_ttl s (current : nat) (stored t now : Z) k (v : Value) :
  0 < capacity s ->
  ((now < stored + t)%Z ->
   fst (Get current now k (Put current stored k v t s)) = Some v) /\
  ((stored + t <= now)%Z ->
   fst (Get current now k (Put current stored k v t s)) = None).
Proof.
  intros Hcap. unfold Get. rewrite lookupEntry_Put by exact Hcap.
  unfold valid. simpl. split; intros H.
  - rewrite !bool_decide_eq_true_2 by (lia || reflexivity). reflexivity.
  - rewrite (bool_decide_eq_false_2 (now - stored < t)%Z) by lia. reflexivity.
Qed.

(** Session isolation of the store: a [Get] under one session version
    never returns what was [Put] under another, expired or not. *)
Lemma Get_other_version s (old new : nat) (stored t now : Z) k (v : Value) :
  old <> new ->
  fst (Get new now k (Put old stored k v t s)) = None.
Proof.
  intros Hne. unfold Get.
  destruct (lookupEntry k (entries (Put old stored k v t s))) as [e|] eqn:L;
    [|reflexivity].
  assert (sessionVersion e = old) as He.
  { unfold Put in L. simpl in L. destruct (capacity s); simpl in L;
      [discriminate|].
    rewrite bool_decide_eq_true_2 in L by reflexivity. now injection L as <-. }
  unfold valid. rewrite (bool_decide_eq_false_2 (sessionVersion e = new))
    by congruence.
  now rewrite andb_false_r.
Qed.

End CacheStore.

(** ** The fetch coordinator *)

Section Coordinator.
Context {Value : Type}.
Import Core.
Implicit Types (b : Broker (Value := Value)) (k : ResourceKey)
  (f : InFlightFetch) (fs : list InFlightFetch) (h : nat).

Lemma occurrences_nil h : occurrences h [] = 0.
Proof. reflexivity. Qed.

Lemma occurrences_cons h (x : nat) (l : list nat) :
  occurrences h (x :: l) = (if decide (x = h) then 1 else 0) + occurrences h l.
Proof.
  unfold occurrences. rewrite filter_cons. now destruct (decide (x = h)).
Qed.

Lemma occurrences_app h (l1 l2 : list nat) :
  occurrences h (l1 ++ l2) = occurrences h l1 + occurrences h l2.
Proof. unfold occurrences. now rewrite filter_app, length_app. Qed.






Lemma isFetch_true k (ver : nat) f :
  isFetch k ver f = true <-> fetchKey f = k /\ fetchVersion f = ver.
Proof.
  unfold isFetch. rewrite andb_true_iff, !bool_decide_eq_true. tauto.
Qed.


Lemma findFetch_None k (ver : nat) fs :
  findFetch k ver fs = None <->
  ~ In (k, ver) (map (fun f => (fetchKey f, fetchVersion f)) fs).
Proof.
  induction fs as [|f fs IH]; simpl; [tauto|].
  destruct (isFetch k ver f) eqn:E.
  - apply isFetch_true in E as [<- <-]. split; [discriminate | tauto].
  - rewrite IH. split; [|tauto]. intros H [Heq|Hin]; [|tauto].
    injection Heq as <- <-.
    assert (isFetch (fetchKey f) (fetchVersion f) f = true) as T
      by now apply isFetch_true.
    congruence.
Qed.

(** Creation and join exclude each other: a caller joins exactly when a
    fetch of the key is in flight. *)
Lemma joinFetch_None k (ver : nat) h fs :
  joinFetch k ver h fs = None <-> findFetch k ver fs = None.
Proof.
  induction fs as [|f fs IH]; simpl; [tauto|].
  destruct (isFetch k ver f); [split; discriminate|].
  destruct (joinFetch k ver h fs); simpl; split; intros H;
    try discriminate; try reflexivity.
  - apply IH in H. discriminate.
  - now apply IH.
Qed.

Lemma joinFetch_Some k (ver : nat) h fs fs' :
  joinFetch k ver h fs = Some fs' ->
  map (fun f => (fetchKey f, fetchVersion f)) fs'
  = map (fun f => (fetchKey f, fetchVersion f)) fs /\
  (forall x, occurrences x (flat_map subscribers fs')
             = occurrences x (flat_map subscribers fs) + occurrences x [h]) /\
  (forall P : nat -> Prop,
      Forall (fun f => P (fetchVersion f)) fs ->
      Forall (fun f => P (fetchVersion f)) fs').
Proof.
  revert fs'. induction fs as [|f fs IH]; intros fs'; simpl; [discriminate|].
  destruct (isFetch k ver f).
  - intros [= <-]. simpl. repeat split.
    + intros x. rewrite !occurrences_app. lia.
    + intros P H. apply Forall_cons in H as [H1 H2]. now constructor.
  - destruct (joinFetch k ver h fs) as [fs1|]; simpl; [|discriminate].
    intros [= <-]. destruct (IH fs1 eq_refl) as (Hids & Hocc & Hver).
    simpl. repeat split.
    + now rewrite Hids.
    + intros x. rewrite !occurrences_app, Hocc. lia.
    + intros P H. apply Forall_cons in H as [H1 H2]. constructor; auto.
Qed.

Lemma removeFetch_found k (ver : nat) fs f :
  findFetch k ver fs = Some f ->
  forall x, occurrences x (flat_map subscribers (removeFetch k ver fs))
            + occurrences x (subscribers f)
            = occurrences x (flat_map subscribers fs).
Proof.
  induction fs as [|f' fs IH]; simpl; [discriminate|].
  destruct (isFetch k ver f').
  - intros [= ->] x. rewrite occurrences_app. lia.
  - intros H x. simpl. rewrite !occurrences_app, <- (IH H x). lia.
Qed.

Lemma removeFetch_In k (ver : nat) fs f :
  In f (removeFetch k ver fs) -> In f fs.
Proof.
  induction fs as [|f' fs IH]; simpl; [tauto|].
  destruct (isFetch k ver f'); simpl; tauto.
Qed.

Lemma removeFetch_Forall k (ver : nat) fs (P : InFlightFetch -> Prop) :
  Forall P fs -> Forall P (removeFetch k ver fs).
Proof.
  rewrite !List.Forall_forall. intros H f Hin. apply H. now apply removeFetch_In in Hin.
Qed.

Lemma removeFetch_NoDup k (ver : nat) fs :
  NoDup (map (fun f => (fetchKey f, fetchVersion f)) fs) ->
  NoDup (map (fun f => (fetchKey f, fetchVersion f)) (removeFetch k ver fs)).
Proof.
  induction fs as [|f' fs IH]; simpl; [auto|].
  intros H. apply NoDup_cons in H as [Hnin Hnd].
  destruct (isFetch k ver f'); [exact Hnd|].
  simpl. apply NoDup_cons. split; [|auto].
  intros Hin. apply Hnin. apply list_elem_of_In. apply list_elem_of_In in Hin.
  apply in_map_iff in Hin as (g & Hg & Hin).
  apply in_map_iff. exists g. split; [exact Hg|]. now apply removeFetch_In in Hin.
Qed.


Lemma find_at_end k (ver : nat) fs f :
  findFetch k ver fs = None -> isFetch k ver f = true ->
  findFetch k ver (fs ++ [f]) = Some f /\ removeFetch k ver (fs ++ [f]) = fs.
Proof.
  intros Hnone Hf. induction fs as [|f' fs IH]; simpl in *.
  - now rewrite Hf.
  - destruct (isFetch k ver f'); [discriminate|].
    destruct (IH Hnone) as [-> ->]. now split.
Qed.

End Coordinator.

(** ** The broker between events *)

Section Broker.
Context {Value : Type}.
Import Core.
Implicit Types (b : Broker (Value := Value)) (k : ResourceKey) (h : nat).

Lemma dropKey_In k (es : list (CacheEntry (Value := Value))) (e : CacheEntry) :
  In e (dropKey k es) -> In e es.
Proof.
  induction es as [|e' es IH]; simpl; [tauto|].
  destruct (bool_decide (key e' = k)); simpl; tauto.
Qed.

Lemma Get_entries (P : CacheEntry (Value := Value) -> Prop)
    (s : CacheStore) (current : nat) (now : Z) k :
  Forall P (entries s) -> Forall P (entries (snd (Get current now k s))).
Proof.
  intros H. unfold Get.
  destruct (lookupEntry k (entries s)) as [e|] eqn:L; [|exact H].
  destruct (valid current now e); [|exact H]. simpl.
  rewrite List.Forall_forall in *. intros x [<-|Hin].
  - apply H. now apply lookupEntry_Some in L.
  - apply H. now apply dropKey_In in Hin.
Qed.

Lemma Put_entries (P : CacheEntry (Value := Value) -> Prop)
    (s : CacheStore) (current : nat) (now t : Z) k (v : Value) :
  P {| key := k; value := v; storedAt := now; ttl := t;
       sessionVersion := current |} ->
  Forall P (entries s) -> Forall P (entries (Put current now k v t s)).
Proof.
  intros Hnew H. unfold Put. simpl. apply Forall_take. constructor; [exact Hnew|].
  rewrite List.Forall_forall in *. intros x Hin. apply H. now apply dropKey_In in Hin.
Qed.

Lemma Invalidate_entries (P : CacheEntry (Value := Value) -> Prop)
    (s : CacheStore) k :
  Forall P (entries s) -> Forall P (entries (Invalidate k s)).
Proof.
  intros H. unfold Invalidate. simpl.
  rewrite List.Forall_forall in *. intros x Hin. apply H. now apply dropKey_In in Hin.
Qed.

Lemma notified_fanout (n : Notification (Value := Value)) (hs : list nat) :
  map fst (map (fun x => (x, n)) hs) = hs.
Proof. induction hs as [|x hs IH]; simpl; [reflexivity | now rewrite IH]. Qed.

Lemma consistent_new (account rgn prof : string) (cap : nat)
    (ttls : string -> Z) :
  consistent (newBroker (Value := Value) account rgn prof cap ttls).
Proof.
  split; simpl.
  - intros h. unfold waiting, notified. simpl.
    destruct (decide (h < 0)); [lia | reflexivity].
  - constructor.
  - constructor.
  - constructor.
Qed.

(** A store change leaves handles and fetches as they are. *)
Lemma consistent_withStore b (s : CacheStore) :
  consistent b ->
  Forall (fun e => sessionVersion e <= version (session b)) (entries s) ->
  consistent (withStore b s).
Proof. intros [H1 H2 H3 _] H4. split; assumption. Qed.

(** [RequestFetch] for a fresh handle keeps the broker consistent. *)
Lemma consistent_RequestFetch b (now : Z) k :
  consistent b ->
  consistent (RequestFetch now k (version (session b)) (nextHandle b)
                (allocHandle b)).
Proof.
  intros [H1 H2 H3 H4]. unfold RequestFetch. simpl.
  assert (forall x, occurrences x [nextHandle b]
                    + (if decide (x < nextHandle b) then 1 else 0)
                    = if decide (x < S (nextHandle b)) then 1 else 0) as Hfresh.
  { intros x. rewrite occurrences_cons, occurrences_nil.
    destruct (decide (nextHandle b = x)), (decide (x < nextHandle b)),
      (decide (x < S (nextHandle b))); lia. }
  destruct (joinFetch k (version (session b)) (nextHandle b) (inflight b))
    as [fs|] eqn:J.
  - apply joinFetch_Some in J as (Hids & Hocc & Hver). split; simpl.
    + intros x. unfold waiting, notified in *. simpl.
      rewrite Hocc, <- Hfresh, <- (H1 x). lia.
    + now apply (Hver (fun v => v = version (session b))).
    + unfold fetchIds. simpl. now rewrite Hids.
    + exact H4.
  - apply joinFetch_None, findFetch_None in J. split; simpl.
    + intros x. unfold waiting, notified in *. simpl.
      rewrite flat_map_app, occurrences_app. simpl.
      rewrite <- Hfresh, <- (H1 x). lia.
    + apply Forall_app. split; [exact H2|]. now constructor.
    + unfold fetchIds in *. simpl. rewrite map_app. simpl.
      apply NoDup_app. split; [exact H3|]. split; [|apply NoDup_singleton].
      intros y Hy Hy'. apply list_elem_of_singleton in Hy'. subst y.
      apply J. now apply list_elem_of_In.
    + exact H4.
Qed.

Lemma consistent_Request b (now : Z) (knd scope : string) :
  consistent b -> consistent (snd (Request now knd scope b)).
Proof.
  intros Hb. unfold Request.
  pose proof (Get_entries _ (store (allocHandle b)) (version (session b)) now
                (keyFor b knd scope) (entries_stamped b Hb)) as Hs.
  simpl in *.
  destruct (Get (version (session b)) now (keyFor b knd scope) (store b))
    as [[v|] s]; simpl in *.
  - destruct Hb as [H1 H2 H3 H4]. split; simpl; auto.
    intros x. unfold waiting, notified in *. simpl.
    rewrite map_app, occurrences_app. simpl.
    rewrite occurrences_cons, occurrences_nil.
    specialize (H1 x).
    destruct (decide (nextHandle b = x)), (decide (x < nextHandle b)),
      (decide (x < S (nextHandle b))); lia.
  - apply (consistent_RequestFetch (withStore b s) now (keyFor b knd scope)).
    now apply consistent_withStore.
Qed.

Lemma consistent_ForceRefresh b (now : Z) (knd scope : string) :
  consistent b -> consistent (snd (ForceRefresh now knd scope b)).
Proof.
  intros Hb. unfold ForceRefresh. apply consistent_Request.
  apply consistent_withStore; [exact Hb|].
  apply Invalidate_entries, (entries_stamped b Hb).
Qed.

Lemma consistent_Resolve b (now : Z) k (ver : nat) (r : FetchResult) :
  consistent b -> consistent (Resolve now k ver r b).
Proof.
  intros Hb. unfold Resolve.
  destruct (findFetch k ver (inflight b)) as [f|] eqn:F; [|exact Hb].
  pose proof (removeFetch_found k ver _ f F) as Hocc.
  destruct Hb as [H1 H2 H3 H4].
  assert (forall (n : Notification) (s : CacheStore),
            Forall (fun e => sessionVersion e <= version (session b))
                   (entries s) ->
            consistent
              (withInflight
                 (deliver (withStore b s)
                    (map (fun h => (h, n)) (subscribers f)))
                 (removeFetch k ver (inflight b)))) as Hall.
  { intros n s Hs. split; simpl.
    - intros x. unfold waiting, notified in *. simpl.
      rewrite map_app, notified_fanout, occurrences_app, <- (H1 x), <- (Hocc x).
      lia.
    - now apply removeFetch_Forall.
    - now apply removeFetch_NoDup.
    - exact Hs. }
  destruct (bool_decide (ver = version (session b))) eqn:V.
  - apply bool_decide_eq_true in V. destruct r as [v|ek msg].
    + apply (Hall (Resolved v false)
               (Put ver now k v (ttlOf b (kind k)) (store b))).
      apply Put_entries; [simpl; lia | exact H4].
    + apply (Hall (Failed ek msg) (store b)). exact H4.
  - apply (Hall Cancelled (store b)). exact H4.
Qed.

Lemma cancelled_split (old : nat) (fs : list InFlightFetch) (x : nat) :
  occurrences x (flat_map subscribers
                   (filter (fun f => fetchVersion f <> old) fs))
  + occurrences x (flat_map subscribers
                     (filter (fun f => fetchVersion f = old) fs))
  = occurrences x (flat_map subscribers fs).
Proof.
  induction fs as [|f fs IH]; simpl; [reflexivity|].
  rewrite !filter_cons.
  destruct (decide (fetchVersion f = old)), (decide (fetchVersion f <> old));
    try contradiction; simpl; rewrite !occurrences_app; lia.
Qed.

Lemma cancelled_handles (hit : list InFlightFetch) :
  map fst (flat_map
             (fun f => map (fun h => (h, Cancelled (Value := Value)))
                         (subscribers f)) hit)
  = flat_map subscribers hit.
Proof.
  induction hit as [|f hit IH]; simpl; [reflexivity|].
  now rewrite map_app, notified_fanout, IH.
Qed.

(** After a switch no fetch of the old session is in flight. *)
Lemma all_cancelled (old : nat) (fs : list InFlightFetch) :
  Forall (fun f => fetchVersion f = old) fs ->
  filter (fun f => fetchVersion f <> old) fs = [] /\
  filter (fun f => fetchVersion f = old) fs = fs.
Proof.
  induction 1 as [|f fs Hf _ [IH1 IH2]]; [now split|].
  rewrite !filter_cons.
  destruct (decide (fetchVersion f <> old)), (decide (fetchVersion f = old));
    try contradiction.
  now rewrite IH1, IH2.
Qed.

Lemma consistent_SwitchSession b (account rgn prof : string) :
  consistent b -> consistent (SwitchSession account rgn prof b).
Proof.
  intros [H1 H2 H3 H4]. unfold SwitchSession, CancelSession. simpl.
  destruct (all_cancelled _ _ H2) as [Hrest Hhit].
  split; simpl.
  - intros x. unfold waiting, notified in *. simpl.
    rewrite map_app, cancelled_handles, occurrences_app, <- (H1 x),
      <- (cancelled_split (version (session b)) (inflight b) x).
    lia.
  - rewrite Hrest. constructor.
  - unfold fetchIds. simpl. rewrite Hrest. constructor.
  - eapply Forall_impl; [exact H4|]. simpl. intros e He. lia.
Qed.

Lemma consistent_step b (e : Event) : consistent b -> consistent (step b e).
Proof.
  intros Hb. destruct e; simpl.
  - now apply consistent_Request.
  - now apply consistent_ForceRefresh.
  - now apply consistent_Resolve.
  - now apply consistent_SwitchSession.
Qed.

Lemma consistent_steps (es : list Event) b :
  consistent b -> consistent (steps b es).
Proof.
  revert b. induction es as [|e es IH]; intros b Hb; simpl; [exact Hb|].
  apply IH. now apply consistent_step.
Qed.

Lemma reachable_consistent b : reachable b -> consistent b.
Proof.
  intros (account & rgn & prof & cap & ttls & es & ->).
  apply consistent_steps, consistent_new.
Qed.

End Broker.

(** ** Claims about the cache and fetch coordination core *)

Section CoreClaims.
Context {Value : Type}.
Import Core.
Implicit Types (b : Broker (Value := Value)) (k : ResourceKey) (h : nat).


Lemma joinFetch_found k (ver : nat) h (fs : list InFlightFetch) (f : InFlightFetch) :
  findFetch k ver fs = Some f ->
  exists fs', joinFetch k ver h fs = Some fs' /\
    findFetch k ver fs'
    = Some {| fetchKey := fetchKey f; startedAt := startedAt f;
              subscribers := subscribers f ++ [h];
              fetchVersion := fetchVersion f |}.
Proof.
  induction fs as [|f' fs IH]; simpl; [discriminate|].
  destruct (isFetch k ver f') eqn:E.
  - intros [= ->]. eexists. split; [reflexivity|]. simpl.
    unfold isFetch in *. simpl. now rewrite E.
  - intros H. destruct (IH H) as (fs' & -> & Hf). eexists.
    split; [reflexivity|]. simpl. now rewrite E.
Qed.

(** One request that misses the cache: it joins the fetch of the key when
    there is one, and starts the only new fetch otherwise. *)
Lemma Request_miss b (now : Z) (knd scope : string) :
  fst (Get (version (session b)) now (keyFor b knd scope) (store b)) = None ->
  let b1 := snd (Request now knd scope b) in
  fst (Request now knd scope b) = nextHandle b /\
  session b1 = session b /\ store b1 = store b /\
  delivered b1 = delivered b /\ nextHandle b1 = S (nextHandle b) /\
  match findFetch (keyFor b knd scope) (version (session b)) (inflight b) with
  | Some f =>
      invoked b1 = invoked b /\
      findFetch (keyFor b knd scope) (version (session b)) (inflight b1)
      = Some {| fetchKey := fetchKey f; startedAt := startedAt f;
                subscribers := subscribers f ++ [nextHandle b];
                fetchVersion := fetchVersion f |}
  | None =>
      invoked b1 = invoked b ++ [(keyFor b knd scope, version (session b))] /\
      inflight b1
      = inflight b ++ [{| fetchKey := keyFor b knd scope; startedAt := now;
                          subscribers := [nextHandle b];
                          fetchVersion := version (session b) |}]
  end.
Proof.
  intros Hmiss. pose proof (Get_miss_store _ _ _ _ Hmiss) as Hs.
  unfold Request. simpl.
  destruct (Get (version (session b)) now (keyFor b knd scope) (store b))
    as [[v|] s]; simpl in *; [discriminate|]. subst s.
  unfold RequestFetch. simpl.
  destruct (findFetch (keyFor b knd scope) (version (session b)) (inflight b))
    as [f|] eqn:F.
  - destruct (joinFetch_found _ _ (nextHandle b) _ _ F) as (fs' & -> & Hf).
    simpl. repeat split; auto.
  - apply (joinFetch_None _ _ (nextHandle b)) in F. rewrite F. simpl.
    repeat split; auto.
Qed.

(** The notifications a resolution delivers. *)
Lemma Resolve_found b (now : Z) k (ver : nat) (r : FetchResult)
    (f : InFlightFetch) :
  findFetch k ver (inflight b) = Some f ->
  inflight (Resolve now k ver r b) = removeFetch k ver (inflight b) /\
  invoked (Resolve now k ver r b) = invoked b /\
  delivered (Resolve now k ver r b)
  = delivered b ++
    map (fun h => (h, if bool_decide (ver = version (session b))
                      then match r with
                           | Fetched v => Resolved v false
                           | FetchFailed ek msg => Failed ek msg
                           end
                      else Cancelled))
        (subscribers f) /\
  store (Resolve now k ver r b)
  = (if bool_decide (ver = version (session b))
     then match r with
          | Fetched v => Put ver now k v (ttlOf b (kind k)) (store b)
          | FetchFailed _ _ => store b
          end
     else store b).
Proof.
  intros F. unfold Resolve. rewrite F.
  destruct (bool_decide (ver = version (session b))); [destruct r|];
    simpl; auto.
Qed.


End CoreClaims.

(** ** Concurrent callers of one resource *)

Section Schedules.
Context {Value : Type}.
Import Core.
Implicit Types (b : Broker (Value := Value)) (k : ResourceKey) (h c : nat)
  (s : Callers (Value := Value)) (m : Move (Value := Value)).





















Lemma readBy_last c (l : list (nat * (ResourceKey * nat)))
    (x : ResourceKey * nat) :
  readBy c l = None ->
  readBy c (l ++ [(c, x)]) = Some x /\ gone c (l ++ [(c, x)]) = l.
Proof.
  induction l as [|[c' kv] l IH]; simpl.
  - rewrite bool_decide_eq_true_2 by reflexivity. now split.
  - destruct (bool_decide (c' = c)); [discriminate|].
    intros H. destruct (IH H) as [-> ->]. now split.
Qed.

(** The two halves of a call, one right after the other, are [Request]:
    the broker is the one after [Request], and the caller holds the handle
    [Request] returns. *)
Lemma Request_in_two_moves s (now : Z) (knd scope : string) c :
  readBy c (between s) = None ->
  let s' := play knd scope s [Reads c now; Joins c now] in
  broker s' = snd (Request now knd scope (broker s)) /\
  handles s' = handles s ++ [(c, fst (Request now knd scope (broker s)))] /\
  between s' = between s.
Proof.
  intros Hc. unfold play, Request. simpl.
  destruct (Get (version (session (broker s))) now
              (keyFor (broker s) knd scope) (store (broker s)))
    as [[v|] st]; simpl.
  - rewrite Hc. now repeat split.
  - destruct (readBy_last c (between s)
                (keyFor (broker s) knd scope, version (session (broker s)))
                Hc) as [-> ->].
    simpl. now repeat split.
Qed.






End Schedules.

Section CoreLifecycle.
Context {Value : Type} {parser : SDK.Rfc3339} {text : ErrorText}.
Import Core.
Implicit Types (b : Broker (Value := Value)) (k : ResourceKey) (h : nat).

(** C4. Failure is never cached. When a request for [K] misses the cache
    and starts a fetch, and that fetch fails, the failure is delivered to
    the caller and nothing is written: the store is as before, [Get(K)]
    still returns found=false, no fetch of [K] stays in flight, and the
    next request for [K] invokes the fetch function again, with nothing
    delivered to it from the failure. The fetch function of the source
    agrees: a failing [ListFunctions] returns the nil list with its error,
    and [loadFunctions] then keeps the functions it had and fetches anew
    on its next run. *)
Theorem failure_is_not_cached b (knd scope : string) (t0 t1 t2 : Z)
    (ek : ErrorKind) (msg : string) :
  let K := keyFor b knd scope in
  let ver := version (session b) in
  fst (Get ver t0 K (store b)) = None ->
  findFetch K ver (inflight b) = None ->
  (t0 <= t1 <= t2)%Z ->
  let b1 := snd (Request t0 knd scope b) in
  let b2 := Resolve t1 K ver (FetchFailed ek msg) b1 in
  let b3 := snd (Request t2 knd scope b2) in
  (invoked b1 = invoked b ++ [(K, ver)] /\
   delivered b2 = delivered b ++ [(nextHandle b, Failed ek msg)] /\
   store b2 = store b /\
   (forall now, (t0 <= now)%Z -> fst (Get ver now K (store b2)) = None) /\
   inflight b2 = inflight b /\
   invoked b3 = invoked b2 ++ [(K, ver)] /\
   delivered b3 = delivered b2 /\
   inflight b3
   = inflight b2 ++ [{| fetchKey := K; startedAt := t2;
                        subscribers := [fst (Request t2 knd scope b2)];
                        fetchVersion := ver |}]) /\
  (forall ctx script fs e,
      Lambda.ListFunctions ctx script = Ret (fs, Some e) -> fs = []) /\
  (forall v script e,
      Lambda.ListFunctions LambdaView.loadContext script = Ret ([], Some e) ->
      exists v',
        LambdaView.outcome (LambdaView.loadFunctions v script) = Ret v' /\
        LambdaView.functions v' = LambdaView.functions v /\
        forall script',
          LambdaView.fetches (LambdaView.loadFunctions v' script')
          = [LambdaView.loadContext]).
Proof.
  intros K ver Hmiss Hf Ht b1 b2 b3. split; [|split].
  - pose proof (Request_miss b t0 knd scope Hmiss) as R. simpl in R.
    fold K ver b1 in R. rewrite Hf in R.
    destruct R as (_ & Hse & Hst & Hd & Hnx & Hi & Hfl).
    assert (isFetch K ver {| fetchKey := K; startedAt := t0;
                             subscribers := [nextHandle b];
                             fetchVersion := ver |} = true) as Hnew
      by now apply isFetch_true.
    destruct (find_at_end _ _ _ _ Hf Hnew) as [Hf1 Hrm].
    rewrite <- Hfl in Hf1, Hrm.
    destruct (Resolve_found b1 t1 K ver (FetchFailed ek msg) _ Hf1)
      as (Hi2 & Hv2 & Hd2 & Hs2).
    fold b2 in Hi2, Hv2, Hd2, Hs2.
    assert (bool_decide (ver = version (session b1)) = true) as Hcur
      by (apply bool_decide_eq_true; unfold ver; now rewrite Hse).
    rewrite Hcur in Hd2, Hs2. simpl in Hd2.
    assert (session b2 = session b) as Hse2.
    { unfold b2, Resolve. rewrite Hf1, Hcur. simpl. exact Hse. }
    assert (store b2 = store b) as Hst2 by congruence.
    assert (forall now, (t0 <= now)%Z -> fst (Get ver now K (store b2)) = None)
      as Hlater.
    { intros now Hnow. rewrite Hst2. now apply (Get_miss_later _ _ t0). }
    assert (keyFor b2 knd scope = K) as Hk2
      by (unfold keyFor, K; now rewrite Hse2).
    assert (inflight b2 = inflight b) as Hin2 by congruence.
    pose proof (Request_miss b2 t2 knd scope) as R3. simpl in R3.
    rewrite Hk2, Hse2 in R3. fold ver b3 in R3.
    specialize (R3 (Hlater t2 ltac:(lia))).
    rewrite Hin2, Hf in R3. destruct R3 as (Hh3 & _ & _ & Hd3 & _ & Hi3 & Hfl3).
    repeat split; try congruence; exact Hlater.
  - intros ctx script fs e. apply listLoop_nil_on_error.
  - intros v script e H. unfold LambdaView.loadFunctions. simpl.
    rewrite H. simpl. eexists. split; [reflexivity|]. split; reflexivity.
Qed.


End CoreLifecycle.

(** ** Claims about the client manager and the view *)

Lemma region_round_trip :
  fst (Aws.SetRegion (fst (Aws.SetRegion Aws.defaultManager "eu-west-1"))
         "us-east-1")
  = Aws.defaultManager.
Proof. reflexivity. Qed.

(** C3 fails as stated on the source: changing the region of
    [defaultManager] to "eu-west-1" and back to "us-east-1" gives
    [defaultManager] again, so no observation of the client manager is a
    session version that every change of the region increases. *)
Lemma SetRegion_has_no_version :
  fst (Aws.SetRegion (fst (Aws.SetRegion Aws.defaultManager "eu-west-1"))
         "us-east-1")
  = Aws.defaultManager /\
  ~ exists ver, versionedBy ver.
Proof.
  split; [exact region_round_trip|].
  intros [ver H].
  pose proof (H Aws.defaultManager "eu-west-1" ltac:(discriminate)) as H1.
  pose proof (H (fst (Aws.SetRegion Aws.defaultManager "eu-west-1"))
                "us-east-1" ltac:(discriminate)) as H2.
  rewrite region_round_trip in H2. lia.
Qed.

(** C3, as the source and the modelled store have it. [SetRegion] records
    the new region, rebuilds the three service clients from the config
    with that region, keeps the profile and returns a nil error; it keeps
    no session version: setting the region reached again, or leaving it and
    coming back, gives the very same manager. In the cache store, a [Get]
    under one session version never returns a value stored under another,
    expired or not: whatever [Get] returns was stored under the version it
    is asked under, and a session switch moves the broker to a version no
    entry has. *)
Theorem SetRegion_and_session_isolation {Value : Type}
    (cm : Aws.ClientManager) (r : string) :
  let cm' := fst (Aws.SetRegion cm r) in
  (snd (Aws.SetRegion cm r) = None /\
   Aws.GetRegion cm' = r /\
   Aws.config cm'
   = {| Aws.Region := r; Aws.Endpoint := Aws.Endpoint (Aws.config cm) |} /\
   Aws.profile cm' = Aws.profile cm /\
   Aws.GetLambdaClient cm' = Aws.lambda_NewFromConfig (Aws.config cm') /\
   Aws.GetS3Client cm' = Aws.s3_NewFromConfig (Aws.config cm') /\
   Aws.GetECSClient cm' = Aws.ecs_NewFromConfig (Aws.config cm') /\
   Aws.SetRegion cm' r = (cm', None) /\
   forall r', fst (Aws.SetRegion (fst (Aws.SetRegion cm' r')) r) = cm') /\
  (forall (s : Core.CacheStore (Value := Value)) old new stored t now k v,
      old <> new ->
      fst (Core.Get new now k (Core.Put old stored k v t s)) = None) /\
  (forall (s : Core.CacheStore (Value := Value)) current now k v,
      fst (Core.Get current now k s) = Some v ->
      exists e, In e (Core.entries s) /\ Core.key e = k /\
                Core.value e = v /\ Core.sessionVersion e = current) /\
  (forall (b : Core.Broker (Value := Value)) account rgn prof now k,
      reachable b ->
      let b' := Core.SwitchSession account rgn prof b in
      Core.version (Core.session b') = S (Core.version (Core.session b)) /\
      fst (Core.Get (Core.version (Core.session b')) now k (Core.store b'))
      = None).
Proof.
  intros cm'. split; [|split; [|split]].
  - repeat split; reflexivity.
  - intros. now apply Get_other_version.
  - intros s current now k v H.
    apply Get_hit in H as (e & ? & ? & ? & ? & _). eauto.
  - intros b account rgn prof now k Hreach b'.
    split; [reflexivity|].
    destruct (fst (Core.Get (Core.version (Core.session b')) now k
                     (Core.store b'))) as [v|] eqn:G; [|reflexivity].
    apply Get_hit in G as (e & Hin & _ & _ & Hver & _).
    apply reachable_consistent in Hreach.
    pose proof (entries_stamped b Hreach) as Hst.
    rewrite List.Forall_forall in Hst. apply Hst in Hin.
    simpl in Hver. lia.
Qed.

Section ViewClaims.
Context {parser : SDK.Rfc3339} {text : ErrorText}.
Import SDK Lambda LambdaView.

(** C7. Every invocation of the fetch function by [loadFunctions] passes
    a context with a bounded deadline, 30 seconds; the call never hangs,
    whatever the provider does; and when the provider does not answer a
    page request before the deadline, the fetch function returns to its
    caller no functions and the SDK's operation error, in which
    [errors.Is] finds [context.DeadlineExceeded]; [loadFunctions] then
    returns with [loading] reset and the functions kept, having started
    the status updates for the loading notice and for "Error: " followed
    by the text of that error, whatever the SDK makes it. The two updates
    are goroutines: in which order they reach the status bar is not
    determined. *)
Theorem loadFunctions_deadline (v : View)
    (script : list (Reply ListFunctionsOutput)) :
  let run := loadFunctions v script in
  let timeout := OperationError DeadlineExceeded in
  fetches run = [loadContext] /\
  Forall (fun ctx => deadline ctx = Some (30 * Second)%Z) (fetches run) /\
  outcome run <> Hang /\
  Is timeout DeadlineExceeded = true /\
  forall pages rest acc,
    script = map Answer pages ++ rest ->
    rest = [] \/ (exists rest', rest = NoAnswer :: rest') ->
    Forall (fun out => morePages out = true) pages ->
    appendPage [] (functionsOf pages) = Ret acc ->
    ListFunctions loadContext script = Ret ([], Some timeout) /\
    outcome run
    = Ret {| functions := functions v;
             loading := false;
             statusUpdates :=
               statusUpdates v ⊎
               {[+ "Loading Lambda functions..."; "Error: " +:+ Error timeout +]}
          |}.
Proof.
  simpl. split; [reflexivity|]. split; [repeat constructor|]. split.
  - assert (ListFunctions loadContext script <> Hang) as H.
    { apply listLoop_returns. now eexists. }
    destruct (ListFunctions loadContext script) as [[fs [e|]]| |]; simpl;
      congruence.
  - split; [reflexivity|].
    intros pages rest acc -> Hrest Hall Happ.
    assert (ListFunctions loadContext (map Answer pages ++ rest)
            = Ret ([], Some (OperationError DeadlineExceeded))) as ->.
    { unfold ListFunctions.
      destruct (listLoop_pages loadContext pages NewListFunctionsPaginator
                  [] acc rest eq_refl Hall Happ) as (p' & Hp' & ->).
      destruct Hrest as [->|[rest' ->]].
      - rewrite listLoop_silent. now apply listLoop_error.
      - now apply listLoop_error. }
    split; [reflexivity|].
    simpl. unfold setLoading, updateStatus. simpl.
    now rewrite <- (assoc_L (⊎)).
Qed.

End ViewClaims.

(** ** The statements at concrete inputs *)

Lemma cache_ttl_witness :
  0 < Core.capacity sampleStore /\
  fst (Core.Get 0 59 sampleKey (Core.Put 0 0 sampleKey 7 60 sampleStore))
  = Some 7 /\
  fst (Core.Get 0 61 sampleKey (Core.Put 0 0 sampleKey 7 60 sampleStore))
  = None.
Proof.
  assert (0 < Core.capacity sampleStore) as Hcap by (simpl; lia).
  split; [exact Hcap|]. split.
  - apply (cache_ttl sampleStore 0 0 60 59 sampleKey 7 Hcap). lia.
  - apply (cache_ttl sampleStore 0 0 60 61 sampleKey 7 Hcap). lia.
Defined.



Lemma failure_is_not_cached_witness :
  fst (Core.Get 0 1 sampleKey (Core.store sampleBroker)) = None /\
  Core.findFetch sampleKey 0 (Core.inflight sampleBroker) = None /\
  (1 <= 2 <= 3)%Z /\
  Core.store
    (Core.Resolve 2 sampleKey 0 (Core.FetchFailed Core.Timeout "deadline")
       (snd (Core.Request 1 "function" "" sampleBroker)))
  = Core.store sampleBroker.
Proof.
  assert (1 <= 2 <= 3)%Z as Ht by lia.
  split; [reflexivity|]. split; [reflexivity|]. split; [exact Ht|].
  destruct (failure_is_not_cached (parser := SDK.rejecting)
              (text := lambdaErrorText) sampleBroker
              "function" "" 1 2 3 Core.Timeout "deadline" eq_refl eq_refl Ht)
    as ((_ & _ & Hstore & _) & _).
  exact Hstore.
Defined.


(** The scenario of the specification: TTL 60 s, capacity 2; after
    [Put(A,1)], [Put(B,2)], [Put(C,3)] the least recently used [A] is gone
    and [B] and [C] are found. *)
Example eviction_scenario :
  let s := Core.Put 0 0 keyC 3 60
             (Core.Put 0 0 keyB 2 60 (Core.Put 0 0 keyA 1 60 sampleStore)) in
  fst (Core.Get 0 1 keyA s) = None /\
  fst (Core.Get 0 1 keyB s) = Some 2 /\
  fst (Core.Get 0 1 keyC s) = Some 3.
Proof. repeat split. Qed.

(** The scenario of the specification: a request starts a fetch, a second
    one joins it, and both receive the one resolved value. *)
Example join_scenario :
  Core.invoked busyBroker = [(sampleKey, 0)] /\
  Core.delivered (Core.Resolve 5 sampleKey 0 (Core.Fetched 42) busyBroker)
  = [(0, Core.Resolved 42 false); (1, Core.Resolved 42 false)].
Proof. split; reflexivity. Qed.

(** Two calls issued while no cached entry exists, the second reaching
    its create-or-join only after the fetch of the first has returned: the
    fetch function runs twice and the callers hold different values. *)
Example late_join_after_success :
  let s :=
    Core.play "function" "" (Core.start sampleBroker)
      [Core.Reads 0 0; Core.Reads 1 0; Core.Joins 1 0;
       Core.Other (Core.EvResolve 1 sampleKey 0 (Core.Fetched 7));
       Core.Joins 0 2;
       Core.Other (Core.EvResolve 3 sampleKey 0 (Core.Fetched 8))] in
  Core.invoked (Core.broker s) = [(sampleKey, 0); (sampleKey, 0)] /\
  Core.delivered (Core.broker s)
  = [(0, Core.Resolved 7 false); (1, Core.Resolved 8 false)].
Proof. split; reflexivity. Qed.

(** A second page that fails drops the function of the first page. *)
Example second_page_fails :
  Lambda.ListFunctions (parser := SDK.rejecting) LambdaView.loadContext
    [SDK.Answer firstOfTwoPages; SDK.Fails (ProviderError "throttled")]
  = Ret ([], Some (ProviderError "throttled")).
Proof. reflexivity. Qed.

(** Without a deadline a silent provider blocks the listing for ever. *)
Example no_deadline_hangs :
  Lambda.ListFunctions (parser := SDK.rejecting) SDK.Background
    [SDK.Answer firstOfTwoPages]
  = Hang.
Proof. reflexivity. Qed.

(** A provider that never answers: the first load of a new view ends at
    the deadline, with the loading notice and the SDK's error handed to the
    status bar. *)
Example silent_provider_times_out :
  LambdaView.outcome
    (LambdaView.loadFunctions (parser := SDK.rejecting)
       (text := lambdaErrorText) LambdaView.newView [])
  = Ret {| LambdaView.functions := [];
           LambdaView.loading := false;
           LambdaView.statusUpdates :=
             {[+ "Loading Lambda functions...";
                 "Error: operation error Lambda: ListFunctions, "
                 +:+ "request canceled, context deadline exceeded" +]} |}.
Proof.
  reflexivity.
Qed.

Example masked_keys :
  Lambda.isSensitiveEnvVar "DB_PASSWORD" = true /\
  Lambda.isSensitiveEnvVar "MONKEY" = true /\
  Lambda.isSensitiveEnvVar "api_key" = false /\
  Lambda.isSensitiveEnvVar "PYTHON_ENV" = false.
Proof. repeat split. Qed.

(** * Further properties of the code *)

(** ** Which keys are sensitive *)

Lemma append_assoc (a b c : string) : (a +:+ b) +:+ c = a +:+ b +:+ c.
Proof.
  induction a as [|x a IH]; [reflexivity|].
  now rewrite !append_cons, IH.
Qed.

Lemma contains_refl (s : string) : contains s s.
Proof. exists "", "". now rewrite append_nil, append_empty_r. Qed.

Lemma contains_trans (a b c : string) :
  contains a b -> contains b c -> contains a c.
Proof.
  intros (p1 & q1 & ->) (p2 & q2 & ->).
  exists (p2 +:+ p1), (q1 +:+ q2). now rewrite !append_assoc.
Qed.

Lemma contains_length (t s : string) :
  contains t s -> String.length t <= String.length s.
Proof. intros (p & q & ->). rewrite !length_append. lia. Qed.

Lemma list_ascii_of_string_append (a b : string) :
  list_ascii_of_string (a +:+ b)
  = list_ascii_of_string a ++ list_ascii_of_string b.
Proof.
  induction a as [|x a IH]; [reflexivity|].
  rewrite append_cons. simpl. now rewrite IH.
Qed.

Lemma contains_chars (t s : string) (c : ascii) :
  contains t s -> In c (list_ascii_of_string t) ->
  In c (list_ascii_of_string s).
Proof.
  intros (p & q & ->) Hc. rewrite !list_ascii_of_string_append.
  apply in_or_app. right. apply in_or_app. now left.
Qed.

(** X1. Five of the twelve keywords are redundant: a key is sensitive exactly
    when it contains PASSWORD, PASSWD, SECRET, KEY, TOKEN, CERT or
    CREDENTIAL. *)
Theorem sensitive_keywords_reduced (k : string) :
  Lambda.isSensitiveEnvVar k = true <->
  exists w, In w baseKeywords /\ contains w k.
Proof.
  rewrite isSensitiveEnvVar_spec. unfold hasSensitiveKeyword. split.
  - intros (w & Hin & Hw).
    assert (exists b, In b baseKeywords /\ contains b w) as (b & Hb & Hbw).
    { simpl in Hin.
      destruct Hin as [<-|[<-|[<-|[<-|[<-|[<-|[<-|[<-|[<-|[<-|[<-|[<-|[]]]]]]]]]]]]].
      - exists "PASSWORD". split; [simpl; tauto | apply contains_refl].
      - exists "PASSWD". split; [simpl; tauto | apply contains_refl].
      - exists "SECRET". split; [simpl; tauto | apply contains_refl].
      - exists "KEY". split; [simpl; tauto | apply contains_refl].
      - exists "TOKEN". split; [simpl; tauto | apply contains_refl].
      - exists "KEY". split; [simpl; tauto | now exists "API_", ""].
      - exists "KEY". split; [simpl; tauto|].
        now exists "AWS_SECRET_ACCESS_", "".
      - exists "PASSWORD". split; [simpl; tauto | now exists "DATABASE_", ""].
      - exists "PASSWORD". split; [simpl; tauto | now exists "DB_", ""].
      - exists "KEY". split; [simpl; tauto | now exists "PRIVATE_", ""].
      - exists "CERT". split; [simpl; tauto | apply contains_refl].
      - exists "CREDENTIAL". split; [simpl; tauto | apply contains_refl]. }
    exists b. split; [exact Hb | now apply (contains_trans b w k)].
  - intros (w & Hin & Hw). exists w. split; [|exact Hw].
    simpl in *. tauto.
Qed.

(** X2. The key is compared as it is, not in upper case: a key without an
    upper-case letter is never sensitive. *)
Theorem lower_case_keys_not_sensitive (k : string) :
  (forall c, In c (list_ascii_of_string k) -> upperCase c = false) ->
  Lambda.isSensitiveEnvVar k = false.
Proof.
  intros Hlow. destruct (Lambda.isSensitiveEnvVar k) eqn:E; [|reflexivity].
  apply isSensitiveEnvVar_spec in E as (w & Hin & Hw).
  assert (exists c, In c (list_ascii_of_string w) /\ upperCase c = true)
    as (c & Hc & Hup).
  { simpl in Hin.
    repeat (destruct Hin as [<-|Hin];
            [eexists; split; [left; reflexivity | reflexivity]|]).
    destruct Hin. }
  rewrite (Hlow c (contains_chars w k c Hw Hc)) in Hup. discriminate.
Qed.

(** X3. A key that embeds a sensitive key is sensitive. *)
Theorem sensitive_superstring (k pre post : string) :
  Lambda.isSensitiveEnvVar k = true ->
  Lambda.isSensitiveEnvVar (pre +:+ k +:+ post) = true.
Proof.
  rewrite !isSensitiveEnvVar_spec. intros (w & Hin & Hw).
  exists w. split; [exact Hin|].
  apply (contains_trans w k); [exact Hw | now exists pre, post].
Qed.

(** X4. A sensitive key has at least three bytes: the empty key and keys of
    one or two bytes are never masked. *)
Theorem sensitive_min_length (k : string) :
  Lambda.isSensitiveEnvVar k = true -> 3 <= String.length k.
Proof.
  intros E. apply isSensitiveEnvVar_spec in E as (w & Hin & Hw).
  apply contains_length in Hw. simpl in Hin.
  repeat (destruct Hin as [<-|Hin]; [simpl in Hw; lia|]).
  destruct Hin.
Qed.

(** ** What the conversions keep and what they replace *)

Section ConversionFacts.
Context {parser : SDK.Rfc3339}.
Import SDK Lambda.

Lemma converted_conversion (fn : FunctionConfiguration) (f : Function) :
  converted fn f -> listedFunction fn = Ret f.
Proof.
  intros [[ctx H]|[ctx [name H]]].
  - now apply listed_conversion in H.
  - rewrite GetFunction_answer in H.
    destruct (listedFunction fn) as [g| |]; simpl in H; congruence.
Qed.

Lemma listedFunction_panic_iff (fn : FunctionConfiguration) :
  listedFunction fn = Panic <-> ~ requiredFields fn.
Proof.
  split; [apply listedFunction_panics|].
  intros Hnot. unfold listedFunction.
  destruct (FunctionName fn) as [n|] eqn:E1; [|reflexivity].
  destruct (SDK.Handler fn) as [h|] eqn:E2; [|reflexivity].
  destruct (MemorySize fn) as [m|] eqn:E3; [|reflexivity].
  destruct (SDK.Timeout fn) as [t|] eqn:E4; [|reflexivity].
  exfalso. apply Hnot. unfold requiredFields.
  rewrite E1, E2, E3, E4. repeat split; eauto.
Qed.

(** X5. Masking twice is masking once: converting a configuration whose
    variables are the environment of a converted function gives that
    environment again. *)
Theorem masking_idempotent (fn fn' : FunctionConfiguration)
    (f f' : Function) :
  converted fn f ->
  variablesOf fn' = Some (Environment f) ->
  converted fn' f' ->
  Environment f' = Environment f.
Proof.
  intros Hf Hvars Hf'.
  apply converted_conversion, listedFunction_inv in Hf
    as (_ & _ & _ & _ & _ & _ & _ & _ & Henv).
  apply converted_conversion, listedFunction_inv in Hf'
    as (_ & _ & _ & _ & _ & _ & _ & _ & Henv').
  apply map_eq. intros k. rewrite Henv'. unfold maskedLookup at 1.
  rewrite Hvars, Henv. unfold maskedLookup.
  destruct (variablesOf fn) as [vars|]; [|reflexivity].
  destruct (vars !! k) as [v|]; simpl; [|reflexivity].
  now destruct (isSensitiveEnvVar k).
Qed.

(** X6. The conversions neither drop nor invent a variable: the returned
    environment has exactly the keys the provider sent, and none when it
    sent no environment. *)
Theorem environment_keys_preserved (fn : FunctionConfiguration)
    (f : Function) :
  converted fn f ->
  dom (Environment f) = default ∅ (dom <$> variablesOf fn).
Proof.
  intros Hf.
  apply converted_conversion, listedFunction_inv in Hf
    as (_ & _ & _ & _ & _ & _ & _ & _ & Henv).
  apply set_eq. intros k. rewrite elem_of_dom, Henv. unfold maskedLookup.
  destruct (variablesOf fn) as [vars|]; simpl.
  - rewrite elem_of_dom. destruct (vars !! k); simpl; split;
      intros [x Hx]; eauto; discriminate.
  - split; [intros [x Hx]; discriminate | intros Hx; set_solver].
Qed.

(** X7. A listing that succeeds has consumed a run of answered pages, each
    but the last announcing a next page and the last announcing none; it
    returns one function for every configuration of exactly these pages,
    in the order of the pages, each with the name, handler, memory size,
    timeout, runtime and state of its configuration. *)
Theorem ListFunctions_order (ctx : Context)
    (script : list (Reply ListFunctionsOutput)) (fs : list Function) :
  ListFunctions ctx script = Ret (fs, None) ->
  exists pages last rest,
    script = map Answer (pages ++ [last]) ++ rest /\
    Forall (fun out => morePages out = true) pages /\
    morePages last = false /\
    Forall2 copiedFrom (functionsOf (pages ++ [last])) fs.
Proof.
  intros H. apply listLoop_success in H
    as (pages & last & rest & -> & Hall & Hlast & Happ); [|reflexivity].
  exists pages, last, rest. split; [reflexivity|].
  split; [exact Hall|]. split; [exact Hlast|].
  apply appendPage_inv in Happ as (new & -> & Hnew). simpl.
  eapply Forall2_impl; [exact Hnew|]. simpl. intros fn f Hf.
  apply listedFunction_inv in Hf as (? & ? & ? & ? & ? & ? & _).
  repeat split; assumption.
Qed.

(** X8. [GetFunction] panics in exactly two cases: the provider answers
    without a configuration, or with one that lacks a name, a handler, a
    memory size or a timeout. An error or a silent provider never makes it
    panic. *)
Theorem GetFunction_panics_iff (ctx : Context) (name : string)
    (reply : Reply GetFunctionOutput) :
  GetFunction ctx name reply = Panic <->
  exists out, reply = Answer out /\
    (Configuration out = None \/
     exists fn, Configuration out = Some fn /\ ~ requiredFields fn).
Proof.
  split.
  - destruct reply as [[[fn|]]|e|].
    + rewrite GetFunction_answer. intros H.
      exists {| Configuration := Some fn |}. split; [reflexivity|]. right.
      exists fn. split; [reflexivity|]. apply listedFunction_panic_iff.
      destruct (listedFunction fn); simpl in H; congruence.
    + intros _. exists {| Configuration := None |}. split; [reflexivity|].
      now left.
    + discriminate.
    + unfold GetFunction, call. destruct (deadline ctx); discriminate.
  - intros (out & -> & [Hnone|(fn & Hfn & Hreq)]); destruct out as [cfg];
      simpl in *; subst cfg.
    + reflexivity.
    + rewrite GetFunction_answer.
      apply listedFunction_panic_iff in Hreq. now rewrite Hreq.
Qed.

Lemma appendPage_panics (acc : list Function)
    (l : list FunctionConfiguration) :
  ~ Forall requiredFields l -> appendPage acc l = Panic.
Proof.
  revert acc. induction l as [|fn l IH]; intros acc Hnot; simpl.
  - exfalso. apply Hnot. constructor.
  - destruct (listedFunction fn) as [f| |] eqn:E; simpl.
    + apply IH. intros Hall. apply Hnot. constructor; [|exact Hall].
      apply listedFunction_inv in E as (E1 & E2 & E3 & E4 & _).
      unfold requiredFields. rewrite E1, E2, E3, E4. repeat split; eauto.
    + reflexivity.
    + now apply listedFunction_no_hang in E.
Qed.

Lemma listLoop_pages_panic (ctx : Context) (pages : list ListFunctionsOutput) :
  forall (p : Paginator) (acc : list Function) (out : ListFunctionsOutput)
         (rest : list (Reply ListFunctionsOutput)),
    HasMorePages p = true ->
    Forall (fun o => morePages o = true) pages ->
    appendPage acc (functionsOf (pages ++ [out])) = Panic ->
    listLoop ctx p acc (map Answer (pages ++ [out]) ++ rest) = Panic.
Proof.
  induction pages as [|o pages IH]; intros p acc out rest Hp Hall Happ.
  - unfold functionsOf in Happ. simpl in Happ. rewrite app_nil_r in Happ.
    simpl map. simpl app. rewrite listLoop_answer by exact Hp.
    now rewrite Happ.
  - apply Forall_cons in Hall as [Ho Hall].
    unfold functionsOf in Happ. simpl in Happ. rewrite appendPage_app in Happ.
    simpl map. simpl app. rewrite listLoop_answer by exact Hp.
    destruct (appendPage acc (Functions o)) as [acc1| |]; simpl in *;
      try congruence.
    now apply IH.
Qed.

(** X9. One configuration without a name, handler, memory size or timeout
    spoils the whole listing: once the page that holds it is answered,
    [ListFunctions] panics, whatever the provider would have sent after
    it; there is no partial list and no error value. *)
Theorem ListFunctions_panics_on_missing_field (ctx : Context)
    (pages : list ListFunctionsOutput) (out : ListFunctionsOutput)
    (rest : list (Reply ListFunctionsOutput)) :
  Forall (fun o => morePages o = true) pages ->
  ~ Forall requiredFields (functionsOf (pages ++ [out])) ->
  ListFunctions ctx (map Answer (pages ++ [out]) ++ rest) = Panic.
Proof.
  intros Hall Hnot. unfold ListFunctions.
  apply listLoop_pages_panic; [reflexivity | exact Hall|].
  now apply appendPage_panics.
Qed.

(** X10. Pagination ends with the first page that announces no next page (a nil
    or an empty marker): the listing is the conversion of all functions of
    the pages up to it, whatever the context, and replies after it are
    never asked for. *)
Theorem ListFunctions_complete_listing (ctx : Context)
    (pages : list ListFunctionsOutput) (last : ListFunctionsOutput)
    (rest : list (Reply ListFunctionsOutput)) :
  Forall (fun o => morePages o = true) pages ->
  morePages last = false ->
  ListFunctions ctx (map Answer (pages ++ [last]) ++ rest)
  = fs ← appendPage [] (functionsOf (pages ++ [last])); Ret (fs, None).
Proof.
  intros Hall Hlast. unfold ListFunctions.
  destruct (appendPage [] (functionsOf (pages ++ [last]))) as [fs| |] eqn:E.
  - unfold functionsOf in E. rewrite map_app, concat_app in E. simpl in E.
    rewrite app_nil_r, appendPage_app in E.
    destruct (appendPage [] (concat (map Functions pages))) as [acc| |] eqn:E1;
      simpl in E; try discriminate.
    destruct (listLoop_pages ctx pages NewListFunctionsPaginator [] acc
                (Answer last :: rest) eq_refl Hall E1) as (p' & Hp' & Heq).
    rewrite map_app, <- app_assoc. simpl. rewrite Heq.
    rewrite listLoop_answer by exact Hp'. rewrite E. simpl.
    now apply listLoop_done.
  - simpl. now apply listLoop_pages_panic.
  - now apply appendPage_no_hang in E.
Qed.

End ConversionFacts.

(** ** Invoking a function *)

(** X11. Unlike [GetFunction], [InvokeFunction] guards every pointer it reads:
    it never panics, and under a context with a deadline it always
    returns. An answered call returns a result, with a nil error: the
    status code and payload of the answer, and an error of the function
    itself ([FunctionError]) and the log only copied to [Error] and
    [LogResult], which are empty where the answer has none. A failed call
    returns that error and no result, and these are the only ways it
    returns: a result exactly when no error. *)
Theorem InvokeFunction_guarded (ctx : SDK.Context) (name : string)
    (payload : list Byte.byte) (reply : SDK.Reply SDKInvoke.InvokeOutput) :
  LambdaInvoke.InvokeFunction ctx name payload reply <> Panic /\
  (is_Some (SDK.deadline ctx) ->
   LambdaInvoke.InvokeFunction ctx name payload reply <> Hang) /\
  (forall out, reply = SDK.Answer out ->
     LambdaInvoke.InvokeFunction ctx name payload reply
     = Ret (Some {| LambdaInvoke.StatusCode := SDKInvoke.StatusCode out;
                    LambdaInvoke.Payload := SDKInvoke.Payload out;
                    LambdaInvoke.Error :=
                      default "" (SDKInvoke.FunctionError out);
                    LambdaInvoke.LogResult :=
                      default "" (SDKInvoke.LogResult out) |},
            None)) /\
  (forall e, reply = SDK.Fails e ->
     LambdaInvoke.InvokeFunction ctx name payload reply
     = Ret (None, Some e)) /\
  (reply = SDK.NoAnswer -> is_Some (SDK.deadline ctx) ->
     LambdaInvoke.InvokeFunction ctx name payload reply
     = Ret (None, Some (OperationError DeadlineExceeded))) /\
  forall res err,
    LambdaInvoke.InvokeFunction ctx name payload reply = Ret (res, err) ->
    (res = None <-> is_Some err) /\
    forall r, res = Some r ->
      exists out, reply = SDK.Answer out /\
        LambdaInvoke.StatusCode r = SDKInvoke.StatusCode out /\
        LambdaInvoke.Payload r = SDKInvoke.Payload out /\
        LambdaInvoke.Error r = default "" (SDKInvoke.FunctionError out) /\
        LambdaInvoke.LogResult r = default "" (SDKInvoke.LogResult out).
Proof.
  unfold LambdaInvoke.InvokeFunction, SDK.call.
  destruct reply as [out|e|]; simpl.
  - split; [discriminate|]. split; [discriminate|].
    split; [|split; [discriminate | split; [discriminate|]]].
    + intros out' [= <-]. destruct out as [sc pl [fe|] [lr|]]; reflexivity.
    + intros res err [= <- <-]. split.
      * split; [discriminate | intros [x Hx]; discriminate].
      * intros r [= <-]. exists out. split; [reflexivity|].
        destruct out as [sc pl [fe|] [lr|]]; simpl; repeat split.
  - split; [discriminate|]. split; [discriminate|].
    split; [discriminate|]. split; [now intros e' [= <-]|].
    split; [discriminate|].
    intros res err [= <- <-]. split.
    + split; [eauto | reflexivity].
    + discriminate.
  - destruct (SDK.deadline ctx) as [d|]; simpl.
    + split; [discriminate|]. split; [discriminate|].
      split; [discriminate|]. split; [discriminate|].
      split; [reflexivity|].
      intros res err [= <- <-]. split.
      * split; [eauto | reflexivity].
      * discriminate.
    + split; [discriminate|]. split; [intros [x Hx]; discriminate|].
      split; [discriminate|]. split; [discriminate|].
      split; [intros _ [x Hx]; discriminate|].
      discriminate.
Qed.

(** ** The client manager from start to any region *)

Lemma setRegions_snoc (cm : Aws.ClientManager) (rs : list string) (r : string) :
  AwsStart.setRegions cm (rs ++ [r])
  = fst (Aws.SetRegion (AwsStart.setRegions cm rs) r).
Proof. unfold AwsStart.setRegions. now rewrite fold_left_app. Qed.

Lemma setRegions_keeps (cm : Aws.ClientManager) (rs : list string) :
  Aws.Endpoint (Aws.config (AwsStart.setRegions cm rs))
  = Aws.Endpoint (Aws.config cm) /\
  Aws.profile (AwsStart.setRegions cm rs) = Aws.profile cm.
Proof.
  induction rs as [|r rs [He Hp]] using rev_ind; [now split|].
  rewrite setRegions_snoc. split; simpl; assumption.
Qed.

(** X12. Region changes do not add up: after any sequence of [SetRegion]
    calls the manager is the one a single call with the last region
    gives. *)
Theorem SetRegion_last_wins (cm : Aws.ClientManager) (rs : list string)
    (r : string) :
  AwsStart.setRegions cm (rs ++ [r]) = fst (Aws.SetRegion cm r).
Proof.
  rewrite setRegions_snoc.
  destruct (setRegions_keeps cm rs) as [He Hp].
  unfold Aws.SetRegion. simpl. now rewrite He, Hp.
Qed.

(** X13. From [NewClientManager] on, through any sequence of region changes,
    the three clients are configured exactly as the manager is, for the
    region [GetRegion] reports; the endpoint chosen at start (LocalStack
    or none) and the empty profile are kept. *)
Theorem clients_follow_region (getenv : string -> string)
    (failure : option error) (cm : Aws.ClientManager) (rs : list string) :
  AwsStart.NewClientManager getenv failure = (Some cm, None) ->
  coherent (AwsStart.setRegions cm rs) /\
  Aws.GetRegion (AwsStart.setRegions cm rs) = List.last rs "us-east-1" /\
  Aws.Endpoint (Aws.config (AwsStart.setRegions cm rs))
  = Aws.Endpoint (Aws.config cm) /\
  Aws.profile (AwsStart.setRegions cm rs) = "".
Proof.
  intros Hnew.
  assert (coherent cm /\ Aws.GetRegion cm = "us-east-1" /\ Aws.profile cm = "")
    as (Hcoh & Hreg & Hprof).
  { unfold AwsStart.NewClientManager, AwsStart.LoadDefaultConfig in Hnew.
    destruct failure, (AwsStart.isLocalStack getenv); try discriminate;
      injection Hnew as <-; repeat split. }
  destruct (setRegions_keeps cm rs) as [He Hp].
  split; [|split; [|split]]; try congruence.
  - destruct rs as [|r rs] using rev_ind; [exact Hcoh|].
    rewrite setRegions_snoc. repeat split.
  - destruct rs as [|r rs] using rev_ind; [exact Hreg|].
    rewrite setRegions_snoc, last_last. reflexivity.
Qed.

(** X14. The resolver [NewClientManager] installs never uses the value of
    AWS_ENDPOINT_URL: that variable only switches LocalStack mode on. Two
    environments that differ in nothing but the (non-empty) value of
    AWS_ENDPOINT_URL build the same manager. *)
Theorem endpoint_url_value_unused (getenv getenv' : string -> string)
    (failure : option error) :
  (forall x, x <> "AWS_ENDPOINT_URL" -> getenv x = getenv' x) ->
  getenv "AWS_ENDPOINT_URL" <> "" ->
  getenv' "AWS_ENDPOINT_URL" <> "" ->
  AwsStart.NewClientManager getenv failure
  = AwsStart.NewClientManager getenv' failure /\
  forall cm, AwsStart.NewClientManager getenv failure = (Some cm, None) ->
    Aws.Endpoint (Aws.config cm)
    = Some (if String.eqb (getenv "LOCALSTACK_ENDPOINT") ""
            then "http://localhost:4566"
            else getenv "LOCALSTACK_ENDPOINT").
Proof.
  intros Hsame Hset Hset'.
  assert (AwsStart.isLocalStack getenv = true) as Hl.
  { unfold AwsStart.isLocalStack. apply String.eqb_neq in Hset.
    rewrite Hset. simpl. now rewrite orb_true_r. }
  assert (AwsStart.isLocalStack getenv' = true) as Hl'.
  { unfold AwsStart.isLocalStack. apply String.eqb_neq in Hset'.
    rewrite Hset'. simpl. now rewrite orb_true_r. }
  assert (AwsStart.resolvedEndpoint getenv = AwsStart.resolvedEndpoint getenv')
    as Hr.
  { unfold AwsStart.resolvedEndpoint.
    now rewrite (Hsame "LOCALSTACK_ENDPOINT") by discriminate. }
  unfold AwsStart.NewClientManager. rewrite Hl, Hl', Hr. split; [reflexivity|].
  intros cm. unfold AwsStart.LoadDefaultConfig.
  destruct failure; [discriminate|]. intros [= <-]. simpl.
  rewrite <- Hr. reflexivity.
Qed.

(** ** The view: loading, the list and the details pane *)

Section ViewFacts.
Context {parser : SDK.Rfc3339} {text : ErrorText}.
Import SDK Lambda LambdaView.

(** X15. Whenever [loadFunctions] returns, [loading] is reset and it has
    started exactly two status updates, one with the loading notice and one
    with the result: after an error "Error: " and the text of the error,
    with the functions the view had before; after a success the count of
    the new functions, which replace the old ones. The updates are
    goroutines, so this is what was started, in no order: which of the two
    texts the status bar shows last is not determined. *)
Theorem loadFunctions_outcome (v v' : View)
    (script : list (Reply ListFunctionsOutput)) :
  outcome (loadFunctions v script) = Ret v' ->
  loading v' = false /\
  ((exists e,
      ListFunctions loadContext script = Ret ([], Some e) /\
      functions v' = functions v /\
      statusUpdates v'
      = statusUpdates v ⊎
        {[+ "Loading Lambda functions..."; "Error: " +:+ Error e +]}) \/
   (exists fs,
      ListFunctions loadContext script = Ret (fs, None) /\
      functions v' = fs /\
      statusUpdates v'
      = statusUpdates v ⊎
        {[+ "Loading Lambda functions...";
            "Loaded " +:+ pretty (length fs) +:+ " functions" +]})).
Proof.
  unfold loadFunctions. simpl.
  destruct (ListFunctions loadContext script) as [[fs [e|]]| |] eqn:E;
    simpl; try discriminate; intros [= <-]; simpl.
  - split; [reflexivity|]. left. exists e.
    apply listLoop_nil_on_error in E as Hnil. subst fs.
    split; [reflexivity|]. split; [reflexivity|].
    now rewrite <- (assoc_L (⊎)).
  - split; [reflexivity|]. right. exists fs.
    split; [reflexivity|]. split; [reflexivity|].
    now rewrite <- (assoc_L (⊎)).
Qed.

End ViewFacts.

Section ScreenFacts.
Context {parser : SDK.Rfc3339} {layout : LambdaScreen.TimeLayout}
  {order : LambdaScreen.MapRange}.
Import SDK Lambda LambdaView LambdaScreen.

Lemma at_index_lookup (fns : list Function) (index : Z) (fn : Function) :
  (0 <= index)%Z -> fns !! Z.to_nat index = Some fn ->
  at_index fns index = Ret fn.
Proof.
  intros H0 Hfn. unfold at_index.
  destruct (Z.ltb_spec index 0); [lia|]. now rewrite Hfn.
Qed.

(** X16. The bounds check of [showFunctionDetails] covers every index: an index
    that is negative or not below the number of functions leaves the
    details pane as it is, and every other index shows the function at
    that index; so indexing the slice never panics. The same holds for the
    selection handler of the list. *)
Theorem showFunctionDetails_bounds (v : View) (w : Widgets) (index : Z)
    (primaryText secondaryText : string) (key : Z) :
  onFunctionSelected v w index primaryText secondaryText key
  = showFunctionDetails v w index /\
  ((index < 0)%Z \/ (Z.of_nat (length (functions v)) <= index)%Z ->
   showFunctionDetails v w index = Ret w) /\
  ((0 <= index < Z.of_nat (length (functions v)))%Z ->
   exists fn, functions v !! Z.to_nat index = Some fn /\
     showFunctionDetails v w index
     = Ret {| functionList := functionList w;
              currentItem := currentItem w;
              functionDetail := built (detailWrites fn) |}).
Proof.
  split; [reflexivity|]. unfold showFunctionDetails. split.
  - intros [Hneg|Hge].
    + destruct (Z.ltb_spec index 0) as [_|Hpos]; [reflexivity | lia].
    + destruct (Z.ltb_spec index 0) as [_|Hpos]; [reflexivity|]. simpl.
      destruct (Z.leb_spec (Z.of_nat (length (functions v))) index);
        [reflexivity | lia].
  - intros [Hpos Hlt].
    destruct (Z.ltb_spec index 0) as [Hneg|_]; [lia|]. simpl.
    destruct (Z.leb_spec (Z.of_nat (length (functions v))) index) as [Hge|_];
      [lia|].
    destruct (functions v !! Z.to_nat index) as [fn|] eqn:Hfn.
    + exists fn. split; [reflexivity|].
      now rewrite (at_index_lookup _ _ fn Hpos Hfn).
    + apply lookup_ge_None in Hfn. lia.
Qed.

Lemma addItems_list (fns : list Function) :
  forall (i : nat) (w : Widgets),
    currentItem (addItems i fns w) = currentItem w /\
    functionDetail (addItems i fns w) = functionDetail w /\
    length (functionList (addItems i fns w))
    = length (functionList w) + length fns /\
    (forall j item, functionList w !! j = Some item ->
                    functionList (addItems i fns w) !! j = Some item) /\
    (forall j fn, fns !! j = Some fn ->
       functionList (addItems i fns w) !! (length (functionList w) + j)
       = Some (itemFor (i + j) fn)).
Proof.
  induction fns as [|fn fns IH]; intros i w; simpl.
  - repeat split; auto; try lia. intros j fn Hj. now destruct j.
  - match goal with |- context [addItems (S i) fns ?w1] =>
      destruct (IH (S i) w1) as (Hc & Hd & Hl & Hold & Hnew) end.
    simpl in *. rewrite length_app in *. simpl in *.
    repeat split; auto; try lia.
    + intros j item Hj. apply Hold. now apply lookup_app_l_Some.
    + intros j g Hj. destruct j as [|j]; simpl in Hj.
      * injection Hj as <-. rewrite (Nat.add_0_r (length (functionList w))).
        rewrite (Hold (length (functionList w))
                   {| mainText := "[" +:+
                        (if negb (String.eqb (Status fn) "Active")
                         then "yellow" else "green") +:+ "]" +:+ bullet
                        +:+ "[white] " +:+ Name fn;
                      secondaryText := Runtime fn +:+ " | "
                        +:+ pretty (Memory fn) +:+ "MB | "
                        +:+ pretty (Timeout fn) +:+ "s timeout";
                      shortcut := toRune (49 + Z.of_nat i) |}).
        -- unfold itemFor. rewrite Nat.add_0_r.
           destruct (String.eqb (Status fn) "Active"); reflexivity.
        -- rewrite lookup_app_r by lia. now rewrite Nat.sub_diag.
      * specialize (Hnew j g Hj).
        replace (length (functionList w) + S j)
          with (length (functionList w) + 1 + j) by lia.
        replace (i + S j) with (S i + j) by lia. exact Hnew.
Qed.

(** X17. [updateFunctionList] never panics and shows what the view holds, not
    what the list held before: with no functions a single placeholder item
    and the text "No functions available"; otherwise one item per
    function, in order, green when its status is "Active" and yellow
    otherwise, with the details of the first function; the current item is
    the first. The shortcut of item [j] is the rune '1' + [j]. *)
Theorem updateFunctionList_items (v : View) (w : Widgets) :
  exists w',
    updateFunctionList v w = Ret w' /\
    currentItem w' = 0%Z /\
    match functions v with
    | [] =>
        functionList w'
        = [{| mainText := "No Lambda functions found"; secondaryText := "";
              shortcut := 0 |}] /\
        functionDetail w' = "No functions available"
    | first :: _ =>
        length (functionList w') = length (functions v) /\
        (forall j fn, functions v !! j = Some fn ->
           functionList w' !! j = Some (itemFor j fn) /\
           ((Z.of_nat j < 2147483599)%Z ->
            shortcut (itemFor j fn) = (49 + Z.of_nat j)%Z)) /\
        functionDetail w' = built (detailWrites first)
    end.
Proof.
  unfold updateFunctionList.
  destruct (functions v) as [|first fns] eqn:Hfns; simpl.
  - eexists. split; [reflexivity|]. simpl. auto.
  - destruct (addItems_list (first :: fns) 0 (Clear w))
      as (Hc & Hd & Hl & _ & Hnew).
    unfold showFunctionDetails. rewrite Hfns. simpl.
    eexists. split; [reflexivity|]. simpl in *.
    split; [reflexivity|]. split; [exact Hl|]. split; [|reflexivity].
    intros j fn Hj. split.
    + exact (Hnew j fn Hj).
    + intros Hsmall. unfold itemFor, toRune. simpl shortcut.
      change (2 ^ 31)%Z with 2147483648%Z.
      change (2 ^ 32)%Z with 4294967296%Z.
      rewrite Z.mod_small by lia. lia.
Qed.

Lemma masked_entries (fn : FunctionConfiguration) (f : Function)
    (vars : gmap string string) :
  converted fn f -> variablesOf fn = Some vars ->
  map_to_list (Environment f) ≡ₚ map maskPair (map_to_list vars).
Proof.
  intros Hf Hvars.
  apply converted_conversion, listedFunction_inv in Hf
    as (_ & _ & _ & _ & _ & _ & _ & _ & Henv).
  change (map maskPair (map_to_list vars))
    with (maskPair <$> map_to_list vars).
  apply NoDup_Permutation.
  - apply NoDup_map_to_list.
  - apply (NoDup_fmap_1 fst). rewrite <- list_fmap_compose.
    apply (NoDup_fst_map_to_list vars).
  - intros [k v']. rewrite elem_of_map_to_list, Henv. unfold maskedLookup.
    rewrite Hvars, list_elem_of_fmap. split.
    + destruct (vars !! k) as [v|] eqn:Hk; simpl; [|discriminate].
      intros [= <-]. exists (k, v). split; [reflexivity|].
      now apply elem_of_map_to_list.
    + intros ([k0 v0] & Heq & Hin). apply elem_of_map_to_list in Hin.
      unfold maskPair in Heq. simpl in Heq. injection Heq as -> ->.
      now rewrite Hin.
Qed.

(** X18. The details pane never shows the provider's value of a sensitive
    variable. Whatever order the map is ranged over, the variables it
    writes are those of the configuration, each once, with the mask in
    place of the value where the key is sensitive; each is written as a
    line of its own; and a sensitive variable whose value is not the mask
    is not among them with that value. *)
Theorem details_mask_sensitive (fn : FunctionConfiguration) (f : Function)
    (vars : gmap string string) :
  (forall m, rangeOver m ≡ₚ map_to_list m) ->
  converted fn f ->
  variablesOf fn = Some vars ->
  rangeOver (Environment f) ≡ₚ map maskPair (map_to_list vars) /\
  (forall kv, In kv (rangeOver (Environment f)) ->
              In (envLine kv) (detailWrites f)) /\
  (forall k v, vars !! k = Some v -> isSensitiveEnvVar k = true ->
               v <> masked -> ~ In (k, v) (rangeOver (Environment f))).
Proof.
  intros Hrange Hf Hvars.
  pose proof (masked_entries fn f vars Hf Hvars) as Hperm.
  assert (rangeOver (Environment f) ≡ₚ map maskPair (map_to_list vars))
    as Hshown by (now rewrite Hrange).
  split; [exact Hshown|]. split.
  - intros kv Hin. unfold detailWrites.
    assert ((0 <? size (Environment f))%nat = true) as ->.
    { apply Nat.ltb_lt.
      destruct (decide (size (Environment f) = 0)) as [Hz|]; [|lia].
      apply map_size_empty_iff in Hz.
      apply list_elem_of_In in Hin. rewrite Hrange, Hz in Hin.
      rewrite map_to_list_empty in Hin. now apply elem_of_nil in Hin. }
    apply in_or_app. right. apply in_or_app. right. apply in_or_app. right.
    apply in_or_app. left. right. apply in_map_iff. exists kv. now split.
  - intros k v Hk Hsens Hne Hin.
    apply list_elem_of_In in Hin. rewrite Hshown in Hin.
    change (map maskPair (map_to_list vars))
      with (maskPair <$> map_to_list vars) in Hin.
    apply list_elem_of_fmap in Hin as ([k0 v0] & Heq & _).
    unfold maskPair in Heq. simpl in Heq. injection Heq as -> ->.
    rewrite Hsens in Hne. now apply Hne.
Qed.

End ScreenFacts.

(** ** The development setup script *)

Lemma waitLoop_gives_up (health : nat -> bool) (m : nat) :
  forall n polls,
    m <= n ->
    (forall j, j < m -> health (polls + j) = false) ->
    DevSetup.waitLoop health n (2 * Z.of_nat m) polls = (0%Z, polls + m).
Proof.
  induction m as [|m IH]; intros n polls Hn Hbad.
  - destruct n; simpl; now rewrite Nat.add_0_r.
  - destruct n as [|n]; [lia|]. simpl DevSetup.waitLoop.
    destruct (Z.ltb_spec 0 (2 * Z.of_nat (S m))) as [_|]; [|lia].
    rewrite <- (Nat.add_0_r polls) at 1. rewrite (Hbad 0) by lia.
    replace (2 * Z.of_nat (S m) - 2)%Z with (2 * Z.of_nat m)%Z by lia.
    rewrite IH; [f_equal; lia | lia |].
    intros j Hj. replace (S polls + j) with (polls + S j) by lia.
    apply Hbad. lia.
Qed.

Lemma waitLoop_ready (health : nat -> bool) (k : nat) :
  forall m n polls,
    k < m -> m <= n ->
    health (polls + k) = true ->
    (forall j, j < k -> health (polls + j) = false) ->
    DevSetup.waitLoop health n (2 * Z.of_nat m) polls
    = ((2 * Z.of_nat (m - k))%Z, S (polls + k)).
Proof.
  induction k as [|k IH]; intros m n polls Hk Hn Hgood Hbad.
  - destruct n as [|n]; [lia|]. simpl DevSetup.waitLoop.
    destruct (Z.ltb_spec 0 (2 * Z.of_nat m)) as [_|]; [|lia].
    rewrite Nat.add_0_r in *. rewrite Hgood. f_equal. f_equal. f_equal. lia.
  - destruct n as [|n]; [lia|]. simpl DevSetup.waitLoop.
    destruct (Z.ltb_spec 0 (2 * Z.of_nat m)) as [_|]; [|lia].
    rewrite <- (Nat.add_0_r polls) at 1. rewrite (Hbad 0) by lia.
    destruct m as [|m]; [lia|].
    replace (2 * Z.of_nat (S m) - 2)%Z with (2 * Z.of_nat m)%Z by lia.
    rewrite (IH m n (S polls)); try lia.
    + f_equal. lia.
    + now replace (S polls + k) with (polls + S k) by lia.
    + intros j Hj. replace (S polls + j) with (polls + S j) by lia.
      apply Hbad. lia.
Qed.

(** X19. The setup script asks the LocalStack health endpoint at most thirty
    times. It fails at once when Docker is not running; it succeeds with
    the first request that is answered, if that is one of the first
    thirty; and it fails after exactly thirty requests when none of them
    is answered. *)
Theorem setup_waits_thirty_polls (health : nat -> bool) :
  DevSetup.setup false health = (1%Z, 0) /\
  (forall k, k < 30 -> health k = true ->
             (forall j, j < k -> health j = false) ->
             DevSetup.setup true health = (0%Z, S k)) /\
  ((forall j, j < 30 -> health j = false) ->
   DevSetup.setup true health = (1%Z, 30)).
Proof.
  split; [reflexivity|]. unfold DevSetup.setup. simpl negb. cbv iota.
  replace (DevSetup.waitLoop health (Z.to_nat 60) 60 0)
    with (DevSetup.waitLoop health 60 (2 * Z.of_nat 30) 0) by reflexivity.
  split.
  - intros k Hk Hgood Hbad.
    rewrite (waitLoop_ready health k 30 60 0); auto; try lia.
    destruct (Z.leb_spec (2 * Z.of_nat (30 - k)) 0); [lia | reflexivity].
  - intros Hbad.
    rewrite (waitLoop_gives_up health 30 60 0); auto; try lia.
Qed.

(** ** The further properties at concrete inputs *)

Lemma lower_case_keys_witness :
  (forall c, In c (list_ascii_of_string "db_password") ->
             upperCase c = false) /\
  Lambda.isSensitiveEnvVar "db_password" = false.
Proof.
  assert (forall c, In c (list_ascii_of_string "db_password") ->
                    upperCase c = false) as Hlow.
  { simpl. intros c Hc.
    repeat (destruct Hc as [<-|Hc]; [reflexivity|]). destruct Hc. }
  split; [exact Hlow|].
  exact (lower_case_keys_not_sensitive "db_password" Hlow).
Defined.

Lemma sensitive_superstring_witness :
  Lambda.isSensitiveEnvVar "KEY" = true /\
  Lambda.isSensitiveEnvVar ("MON" +:+ "KEY" +:+ "S") = true.
Proof.
  split; [reflexivity|].
  exact (sensitive_superstring "KEY" "MON" "S" eq_refl).
Defined.

Lemma sensitive_min_length_witness :
  Lambda.isSensitiveEnvVar "KEY" = true /\ 3 <= String.length "KEY".
Proof.
  split; [reflexivity|]. exact (sensitive_min_length "KEY" eq_refl).
Defined.

Lemma masking_idempotent_witness :
  converted (parser := SDK.rejecting) fooConfiguration fooFunction /\
  variablesOf maskedConfiguration = Some (Lambda.Environment fooFunction) /\
  converted (parser := SDK.rejecting) maskedConfiguration fooFunction /\
  Lambda.Environment fooFunction = Lambda.Environment fooFunction.
Proof.
  assert (converted (parser := SDK.rejecting) fooConfiguration fooFunction)
    as H1.
  { left. exists LambdaView.loadContext, [samplePage], [], [fooFunction], 0.
    repeat split; vm_compute; reflexivity. }
  assert (converted (parser := SDK.rejecting) maskedConfiguration fooFunction)
    as H2.
  { right. exists LambdaView.loadContext, "test-function".
    vm_compute. reflexivity. }
  split; [exact H1|]. split; [reflexivity|]. split; [exact H2|].
  exact (masking_idempotent (parser := SDK.rejecting) fooConfiguration
           maskedConfiguration fooFunction fooFunction H1 eq_refl H2).
Defined.

Lemma environment_keys_witness :
  converted (parser := SDK.rejecting) fooConfiguration fooFunction /\
  dom (Lambda.Environment fooFunction)
  = default ∅ (dom <$> variablesOf fooConfiguration).
Proof.
  assert (converted (parser := SDK.rejecting) fooConfiguration fooFunction)
    as H1.
  { left. exists LambdaView.loadContext, [samplePage], [], [fooFunction], 0.
    repeat split; vm_compute; reflexivity. }
  split; [exact H1|].
  exact (environment_keys_preserved (parser := SDK.rejecting)
           fooConfiguration fooFunction H1).
Defined.

Lemma ListFunctions_order_witness :
  Lambda.ListFunctions (parser := SDK.rejecting) LambdaView.loadContext
    [SDK.Answer samplePage] = Ret ([fooFunction], None) /\
  exists pages last rest,
    [SDK.Answer samplePage] = map SDK.Answer (pages ++ [last]) ++ rest /\
    Forall (fun out => morePages out = true) pages /\
    morePages last = false /\
    Forall2 copiedFrom (functionsOf (pages ++ [last])) [fooFunction].
Proof.
  assert (Lambda.ListFunctions (parser := SDK.rejecting)
            LambdaView.loadContext [SDK.Answer samplePage]
          = Ret ([fooFunction], None)) as H by (vm_compute; reflexivity).
  split; [exact H|].
  exact (ListFunctions_order (parser := SDK.rejecting) LambdaView.loadContext
           [SDK.Answer samplePage] [fooFunction] H).
Defined.

Lemma ListFunctions_panics_witness :
  Forall (fun o => morePages o = true) [] /\
  ~ Forall requiredFields (functionsOf ([] ++ [namelessPage])) /\
  Lambda.ListFunctions (parser := SDK.rejecting) LambdaView.loadContext
    (map SDK.Answer ([] ++ [namelessPage]) ++ []) = Panic.
Proof.
  assert (~ Forall requiredFields (functionsOf ([] ++ [namelessPage]))) as Hbad.
  { intros H. apply Forall_cons in H as [_ H]. apply Forall_cons in H as [H _].
    destruct H as [[x Hx] _]. discriminate. }
  assert (Forall (fun o => morePages o = true) []) as Hnil by constructor.
  split; [exact Hnil|]. split; [exact Hbad|].
  exact (ListFunctions_panics_on_missing_field (parser := SDK.rejecting)
           LambdaView.loadContext [] namelessPage [] Hnil Hbad).
Defined.

Lemma ListFunctions_complete_witness :
  Forall (fun o => morePages o = true) [firstOfTwoPages] /\
  morePages samplePage = false /\
  Lambda.ListFunctions (parser := SDK.rejecting) SDK.Background
    (map SDK.Answer ([firstOfTwoPages] ++ [samplePage])
     ++ [SDK.Fails (ProviderError "not asked")])
  = fs ← Lambda.appendPage (parser := SDK.rejecting) []
           (functionsOf ([firstOfTwoPages] ++ [samplePage]));
    Ret (fs, None).
Proof.
  assert (Forall (fun o => morePages o = true) [firstOfTwoPages]) as H1
    by (repeat constructor).
  split; [exact H1|]. split; [reflexivity|].
  exact (ListFunctions_complete_listing (parser := SDK.rejecting)
           SDK.Background [firstOfTwoPages] samplePage
           [SDK.Fails (ProviderError "not asked")] H1 eq_refl).
Defined.

Lemma clients_follow_region_witness :
  AwsStart.NewClientManager emptyEnvironment None
  = (Some Aws.defaultManager, None) /\
  coherent (AwsStart.setRegions Aws.defaultManager ["eu-west-1"; "ap-south-1"]) /\
  Aws.GetRegion
    (AwsStart.setRegions Aws.defaultManager ["eu-west-1"; "ap-south-1"])
  = "ap-south-1".
Proof.
  assert (AwsStart.NewClientManager emptyEnvironment None
          = (Some Aws.defaultManager, None)) as H by reflexivity.
  split; [exact H|].
  destruct (clients_follow_region emptyEnvironment None Aws.defaultManager
              ["eu-west-1"; "ap-south-1"] H) as (Hc & Hr & _).
  split; [exact Hc | exact Hr].
Defined.

Lemma endpoint_url_value_witness :
  (forall x, x <> "AWS_ENDPOINT_URL" ->
             localEnvironment x = otherEnvironment x) /\
  localEnvironment "AWS_ENDPOINT_URL" <> "" /\
  otherEnvironment "AWS_ENDPOINT_URL" <> "" /\
  AwsStart.NewClientManager localEnvironment None
  = AwsStart.NewClientManager otherEnvironment None.
Proof.
  assert (forall x, x <> "AWS_ENDPOINT_URL" ->
                    localEnvironment x = otherEnvironment x) as Hsame.
  { intros x Hx. unfold localEnvironment, otherEnvironment.
    destruct (String.eqb_spec x "AWS_ENDPOINT_URL"); [contradiction|].
    reflexivity. }
  assert (localEnvironment "AWS_ENDPOINT_URL" <> "") as H1 by discriminate.
  assert (otherEnvironment "AWS_ENDPOINT_URL" <> "") as H2 by discriminate.
  split; [exact Hsame|]. split; [exact H1|]. split; [exact H2|].
  exact (proj1 (endpoint_url_value_unused localEnvironment otherEnvironment
                  None Hsame H1 H2)).
Defined.

Lemma loadFunctions_outcome_witness :
  LambdaView.outcome
    (LambdaView.loadFunctions (parser := SDK.rejecting)
       (text := lambdaErrorText) LambdaView.newView [SDK.Answer samplePage])
  = Ret (LambdaView.setLoading
           (LambdaView.updateStatus
              (LambdaView.setFunctions
                 (LambdaView.updateStatus
                    (LambdaView.setLoading LambdaView.newView true)
                    "Loading Lambda functions...")
                 [fooFunction])
              "Loaded 1 functions")
           false) /\
  LambdaView.statusUpdates
    (LambdaView.setLoading
       (LambdaView.updateStatus
          (LambdaView.setFunctions
             (LambdaView.updateStatus
                (LambdaView.setLoading LambdaView.newView true)
                "Loading Lambda functions...")
             [fooFunction])
          "Loaded 1 functions")
       false)
  = LambdaView.statusUpdates LambdaView.newView ⊎
    {[+ "Loading Lambda functions..."; "Loaded 1 functions" +]}.
Proof.
  assert (LambdaView.outcome
            (LambdaView.loadFunctions (parser := SDK.rejecting)
               (text := lambdaErrorText) LambdaView.newView
               [SDK.Answer samplePage])
          = Ret (LambdaView.setLoading
                   (LambdaView.updateStatus
                      (LambdaView.setFunctions
                         (LambdaView.updateStatus
                            (LambdaView.setLoading LambdaView.newView true)
                            "Loading Lambda functions...")
                         [fooFunction])
                      "Loaded 1 functions")
                   false))
    as H by reflexivity.
  split; [exact H|].
  destruct (loadFunctions_outcome (parser := SDK.rejecting)
              (text := lambdaErrorText) LambdaView.newView _
              [SDK.Answer samplePage] H) as [_ [(e & He & _)|(fs & Hfs & _ & Hst)]].
  - discriminate He.
  - injection Hfs as <-. exact Hst.
Defined.

Lemma details_mask_witness :
  (forall m, LambdaScreen.rangeOver (MapRange := listOrder) m
             ≡ₚ map_to_list m) /\
  converted (parser := SDK.rejecting) fooConfiguration fooFunction /\
  variablesOf fooConfiguration = Some fooVariables /\
  ~ In ("DB_PASSWORD", "hunter2")
       (LambdaScreen.rangeOver (MapRange := listOrder)
          (Lambda.Environment fooFunction)).
Proof.
  assert (forall m, LambdaScreen.rangeOver (MapRange := listOrder) m
                    ≡ₚ map_to_list m) as Hrange by reflexivity.
  assert (converted (parser := SDK.rejecting) fooConfiguration fooFunction)
    as H1.
  { left. exists LambdaView.loadContext, [samplePage], [], [fooFunction], 0.
    repeat split; vm_compute; reflexivity. }
  split; [exact Hrange|]. split; [exact H1|]. split; [reflexivity|].
  destruct (details_mask_sensitive (parser := SDK.rejecting)
              (layout := secondsLayout) (order := listOrder)
              fooConfiguration fooFunction fooVariables Hrange H1 eq_refl)
    as (_ & _ & Hhidden).
  apply (Hhidden "DB_PASSWORD" "hunter2").
  - vm_compute. reflexivity.
  - reflexivity.
  - discriminate.
Defined.

(** The list and the details pane for the sample function. *)
Example sample_screen :
  LambdaScreen.updateFunctionList (layout := secondsLayout)
    (order := listOrder) fooView sampleWidgets
  = Ret {| LambdaScreen.functionList :=
             [{| LambdaScreen.mainText :=
                   "[green]●[white] test-function";
                 LambdaScreen.secondaryText :=
                   "python3.9 | 128MB | 30s timeout";
                 LambdaScreen.shortcut := 49 |}];
           LambdaScreen.currentItem := 0;
           LambdaScreen.functionDetail :=
             LambdaScreen.built
               (LambdaScreen.detailWrites (layout := secondsLayout)
                  (order := listOrder) fooFunction) |}.
Proof. vm_compute. reflexivity. Qed.

(** Only AWS_ENDPOINT_URL set: LocalStack mode, yet the default URL. *)
Example endpoint_url_alone :
  fst (AwsStart.NewClientManager localEnvironment None)
  = Some (Aws.managerFor {| Aws.Region := "us-east-1";
                            Aws.Endpoint := Some "http://localhost:4566" |}).
Proof. reflexivity. Qed.
